(** * VRPTW by simulated annealing: a shallow embedding of
      [simulated_annealing.ipynb] and the properties of its search engine.

    The notebook defines five functions over plain Python data:
    - [generate_vrptw_parameters]  the random instance generator,
    - [is_feasible]            the standalone feasibility check,
    - [calculate_cost]         the objective with its inline checks,
    - [generate_new_solution]  the swap move between two routes,
    - [simulated_annealing]    the acceptance and cooling loop.

    Integers are [Z]; dictionaries are [gmap]; sets are [gset]; a raised
    exception is a value of the error monad [result]; list objects that are
    copied and updated in place live in an explicit object store; Python
    floats are IEEE 754 binary64 numbers ([spec_float] with precision 53 and
    maximal exponent 1024); the pseudorandom generator is a sequence of
    draws that is threaded through the calls. *)

From Stdlib Require Import ZArith Lia Floats.SpecFloat.
From stdpp Require Import gmap list.

Local Open Scope Z_scope.

(** ** Exceptions and early returns *)

Inductive exn :=
  | KeyError | IndexError | ValueError | TypeError
  | OverflowError | ZeroDivisionError.

Inductive result (A : Type) :=
  | Ok (v : A)
  | Raise (e : exn).
Arguments Ok {A} v.
Arguments Raise {A} e.

Definition bind {A B : Type} (m : result A) (f : A → result B) : result B :=
  match m with
  | Ok v => f v
  | Raise e => Raise e
  end.

Notation "'let*' x := m 'in' k" := (bind m (λ x, k))
  (at level 10, x name, m at level 200, k at level 200, only parsing).
Notation "'let*' ' pat := m 'in' k" := (bind m (λ pat, k))
  (at level 10, pat pattern, m at level 200, k at level 200, only parsing).

(** The outcome of a loop body that may execute [return]: either the
    function has returned [r], or the loop goes on with the state [s]. *)
Inductive flow (R S : Type) :=
  | Returned (r : R)
  | Running (s : S).
Arguments Returned {R S} r.
Arguments Running {R S} s.

(** [d[k]] on a dictionary: a missing key raises [KeyError]. *)
Definition getitem `{Countable K} {V : Type} (d : gmap K V) (k : K) : result V :=
  match d !! k with
  | Some v => Ok v
  | None => Raise KeyError
  end.

(** [len(d)] as a Python integer. *)
Definition len `{Countable K} {V : Type} (d : gmap K V) : Z := Z.of_nat (size d).

(** List subscripts: a negative index counts from the end, and an index
    outside the list raises [IndexError]. *)
Definition norm_index (n : nat) (i : Z) : result nat :=
  let i := if bool_decide (i < 0) then i + Z.of_nat n else i in
  if bool_decide (0 ≤ i < Z.of_nat n) then Ok (Z.to_nat i) else Raise IndexError.

(** [xs[i]] *)
Definition list_getitem {A : Type} (xs : list A) (i : Z) : result A :=
  let* k := norm_index (length xs) i in
  match xs !! k with
  | Some v => Ok v
  | None => Raise IndexError
  end.

(** [xs[i] = v] *)
Definition list_setitem {A : Type} (xs : list A) (i : Z) (v : A) : result (list A) :=
  let* k := norm_index (length xs) i in
  Ok (<[k := v]> xs).

(** ** Costs

    [calculate_cost] returns either the integer [total_cost] or
    [float('inf')]. *)
Inductive cost :=
  | Fin (c : Z)
  | Inf.

#[global] Instance cost_eq_dec : EqDecision cost.
Proof. solve_decision. Defined.

(** Python's [<] between two such values: integers compare as integers,
    every integer is below [inf], and [inf < inf] is false. *)
Definition cost_lt (x y : cost) : bool :=
  match x, y with
  | Fin c, Fin d => bool_decide (c < d)
  | Fin _, Inf => true
  | Inf, _ => false
  end.

Definition cost_le (x y : cost) : bool := negb (cost_lt y x).

(** ** The feasibility check *)

Section Feasibility.
Variables (tij : gmap (Z * Z) Z) (di : gmap Z Z) (q : Z) (a b : gmap Z Z).

(** The set comprehension of constraint (2.2): every visited node that is
    neither [0] nor [len(b) - 1]. *)
Definition customers_visited (routes : list (list Z)) : gset Z :=
  foldl (λ visited route,
           foldl (λ visited i,
                    if bool_decide (i ≠ 0 ∧ i ≠ len b - 1)
                    then {[ i ]} ∪ visited else visited)
                 visited route)
        ∅ routes.

(** The loop [for idx in range(len(route) - 1)] over the consecutive
    pairs [(i, j)] of a route; [Returned false] is the [return False] of
    the body. *)
Fixpoint is_feasible_route (route : list Z) (load arrival_time : Z)
  : result (flow bool (Z * Z)) :=
  match route with
  | i :: ((j :: _) as rest) =>
      let load := match di !! j with Some d => load + d | None => load end in
      if bool_decide (is_Some (di !! j)) && bool_decide (load > q)
      then Ok (Returned false)
      else
        let* t := getitem tij (i, j) in
        let* aj := getitem a j in
        let arrival_time := Z.max (arrival_time + t) aj in
        let* bj := getitem b j in
        if bool_decide (arrival_time > bj) then Ok (Returned false)
        else is_feasible_route rest load arrival_time
  | _ => Ok (Running (load, arrival_time))
  end.

(** Constraints (2.4) and (2.6): [route[0] != 0 or route[-1] != len(b) - 1].
    Indexing an empty route raises [IndexError]. *)
Definition bad_endpoints (route : list Z) : result bool :=
  let* first := list_getitem route 0 in
  if bool_decide (first ≠ 0) then Ok true
  else
    let* final := list_getitem route (-1) in
    Ok (bool_decide (final ≠ len b - 1)).

(** The loop [for k, route in enumerate(routes)]. *)
Fixpoint is_feasible_routes (routes : list (list Z)) : result bool :=
  match routes with
  | [] => Ok true
  | route :: routes' =>
      match is_feasible_route route 0 0 with
      | Raise e => Raise e
      | Ok (Returned v) => Ok v
      | Ok (Running _) =>
          let* bad := bad_endpoints route in
          if bad then Ok false else is_feasible_routes routes'
      end
  end.
End Feasibility.

(** [is_feasible(routes, tij, di, q, a, b, K)]; [K] is not used. *)
Definition is_feasible (routes : list (list Z)) (tij : gmap (Z * Z) Z)
    (di : gmap Z Z) (q : Z) (a b : gmap Z Z) (K : Z) : result bool :=
  if bool_decide (size (customers_visited b routes) ≠ size di) then Ok false
  else is_feasible_routes tij di q a b routes.

(** ** The cost evaluator *)

(** The arc ledger [x]: a dictionary that holds an empty dictionary under
    each vehicle index and [1] under each arc [(k, i, j)] walked. *)
Inductive ledger_entry := EmptyDict | One.

Abbreviation ledger := (gmap (nat + nat * Z * Z) ledger_entry).

(** [{k: {} for k in range(num_vehicles)}] *)
Definition new_ledger (num_vehicles : Z) : ledger :=
  list_to_map ((λ k, (inl k, EmptyDict)) <$> seq 0 (Z.to_nat num_vehicles)).

Section Cost.
Variables (cij tij : gmap (Z * Z) Z) (a b : gmap Z Z) (q : Z) (di : gmap Z Z).

(** The inner loop of [calculate_cost] on route number [k]; [Returned Inf]
    is [return float('inf')]. *)
Fixpoint calculate_cost_route (k : nat) (route : list Z) (x : ledger)
    (total_cost load arrival_time : Z) : result (flow cost (ledger * Z)) :=
  match route with
  | i :: ((j :: _) as rest) =>
      let x := <[inr (k, i, j) := One]> x in
      let* c := getitem cij (i, j) in
      let total_cost := total_cost + c in
      let* t := getitem tij (i, j) in
      let* aj := getitem a j in
      let arrival_time := Z.max (arrival_time + t) aj in
      let* bj := getitem b j in
      if bool_decide (arrival_time > bj) then Ok (Returned Inf)
      else
        match di !! j with
        | Some d =>
            let load := load + d in
            if bool_decide (load > q) then Ok (Returned Inf)
            else calculate_cost_route k rest x total_cost load arrival_time
        | None => calculate_cost_route k rest x total_cost load arrival_time
        end
  | _ => Ok (Running (x, total_cost))
  end.

(** The loop [for k, route in enumerate(routes)]. *)
Fixpoint calculate_cost_routes (k : nat) (routes : list (list Z)) (x : ledger)
    (total_cost : Z) : result cost :=
  match routes with
  | [] => Ok (Fin total_cost)
  | route :: routes' =>
      match calculate_cost_route k route x total_cost 0 0 with
      | Raise e => Raise e
      | Ok (Returned c) => Ok c
      | Ok (Running (x, total_cost)) =>
          calculate_cost_routes (S k) routes' x total_cost
      end
  end.
End Cost.

(** [calculate_cost(x, cij, tij, a, b, q, di, routes)]. The argument [x] is
    rebound at once to a fresh ledger sized by the notebook's global
    [num_vehicles], which is the first parameter here. *)
Definition calculate_cost (num_vehicles : Z) (x : ledger)
    (cij tij : gmap (Z * Z) Z) (a b : gmap Z Z) (q : Z) (di : gmap Z Z)
    (routes : list (list Z)) : result cost :=
  let total_cost := 0 in
  let x := new_ledger num_vehicles in
  calculate_cost_routes cij tij a b q di 0 routes x total_cost.

(** ** The notebook's instance (seed 30) and its three test solutions *)

Module Notebook.
Definition n : Z := 3.
Definition num_vehicles : Z := 2.

Definition cij : gmap (Z * Z) Z := list_to_map
  [ ((0, 1), 44); ((0, 2), 28); ((0, 3), 49); ((0, 4), 11);
    ((1, 0), 49); ((1, 2), 23); ((1, 3), 26); ((1, 4), 13);
    ((2, 0), 35); ((2, 1), 34); ((2, 3), 18); ((2, 4), 15);
    ((3, 0), 39); ((3, 1), 10); ((3, 2), 43); ((3, 4), 25);
    ((4, 0), 11); ((4, 1), 14); ((4, 2), 20); ((4, 3), 48) ].

Definition tij : gmap (Z * Z) Z := list_to_map
  [ ((0, 1), 21); ((0, 2), 17); ((0, 3), 25); ((0, 4), 16);
    ((1, 0), 22); ((1, 2), 7); ((1, 3), 17); ((1, 4), 5);
    ((2, 0), 12); ((2, 1), 30); ((2, 3), 23); ((2, 4), 26);
    ((3, 0), 13); ((3, 1), 29); ((3, 2), 18); ((3, 4), 23);
    ((4, 0), 8); ((4, 1), 26); ((4, 2), 13); ((4, 3), 25) ].

Definition di : gmap Z Z := list_to_map [ (1, 13); (2, 6); (3, 14) ].
Definition q : Z := 20.
Definition a : gmap Z Z :=
  list_to_map [ (0, 0); (1, 39); (2, 16); (3, 39); (4, 0) ].
Definition b : gmap Z Z :=
  list_to_map [ (0, 100); (1, 72); (2, 27); (3, 48); (4, 100) ].
Definition K : Z := 1000.

Definition exact_routes : list (list Z) := [[0; 1; 4]; [0; 2; 3; 4]].
Definition infeasible_routes : list (list Z) := [[0; 1; 4]; [0; 2; 3]].
Definition feasible_routes : list (list Z) := [[0; 3; 4]; [0; 2; 1; 4]].

Definition x : ledger := new_ledger num_vehicles.
End Notebook.

(** ** The pseudorandom generator

    The generator is a sequence of draws, consumed from the front; a draw
    below [n] is the next element reduced modulo [n], so that every value of
    the range is the outcome of some sequence. An exhausted sequence keeps
    drawing [0]. *)
Definition rng := list N.

Definition next (g : rng) : N * rng :=
  match g with
  | [] => (0%N, [])
  | d :: g' => (d, g')
  end.

Definition randbelow (n : nat) (g : rng) : nat * rng :=
  let '(d, g) := next g in (N.to_nat (d mod N.of_nat n), g).

(** [random.randint(a, b)], that is [randrange(a, b + 1)]: an empty range
    raises [ValueError]. *)
Definition randint (a b : Z) (g : rng) : result (Z * rng) :=
  let width := b + 1 - a in
  if bool_decide (width > 0)
  then let '(r, g) := randbelow (Z.to_nat width) g in Ok (a + Z.of_nat r, g)
  else Raise ValueError.

(** [random.sample(range(n), 2)]: [ValueError] when the population has
    fewer than two elements; otherwise the first index is drawn below [n]
    and the second below [n - 1] from the pool in which the last element
    has taken the place of the first pick. (Above 21 elements CPython
    redraws the second index until it differs from the first; the ordered
    pairs of distinct indices it can return are the same.) *)
Definition sample2 (n : nat) (g : rng) : result (nat * nat * rng) :=
  if bool_decide (n < 2)%nat then Raise ValueError
  else
    let '(v1, g) := randbelow n g in
    let '(j, g) := randbelow (n - 1) g in
    let v2 := if bool_decide (j = v1) then (n - 1)%nat else j in
    Ok (v1, v2, g).

(** [random.random()]: one of the 2^53 floats [k / 2^53]. *)
Definition random (g : rng) : spec_float * rng :=
  let '(d, g) := next g in
  (binary_normalize 53 1024 (Z.of_N d mod 2 ^ 53) (-53) false, g).

(** ** The object store

    Lists are mutable objects. The store maps the address of each list to
    its elements, which are integers or references to other lists. *)
Definition loc := positive.

Inductive value :=
  | VInt (z : Z)
  | VRef (l : loc).

#[global] Instance value_eq_dec : EqDecision value.
Proof. solve_decision. Defined.

Abbreviation store := (gmap loc (list value)).

(** A new list object. *)
Definition alloc (h : store) (xs : list value) : loc * store :=
  let l := fresh (dom h) in (l, <[l := xs]> h).

(** The list a value refers to; an integer is not a list. *)
Definition deref (h : store) (v : value) : result (list value) :=
  match v with
  | VRef l => match h !! l with Some xs => Ok xs | None => Raise TypeError end
  | VInt _ => Raise TypeError
  end.

(** [v[i]] *)
Definition subscript (h : store) (v : value) (i : Z) : result value :=
  let* xs := deref h v in list_getitem xs i.

(** [v[i] = w] *)
Definition store_subscript (h : store) (v : value) (i : Z) (w : value)
  : result store :=
  let* xs := deref h v in
  let* xs := list_setitem xs i w in
  match v with
  | VRef l => Ok (<[l := xs]> h)
  | VInt _ => Raise TypeError
  end.

(** [len(v)] *)
Definition length_of (h : store) (v : value) : result Z :=
  let* xs := deref h v in Ok (Z.of_nat (length xs)).

(** Truth value: a list is true when it is not empty, an integer when it
    is not zero. *)
Definition truthy (h : store) (v : value) : result bool :=
  match v with
  | VInt z => Ok (bool_decide (z ≠ 0))
  | VRef _ => let* xs := deref h v in Ok (bool_decide (xs ≠ []))
  end.

(** Reading a solution out of the store, for the evaluators, which only
    read it: a list of lists of integers. *)
Fixpoint traverse {A B : Type} (f : A → result B) (xs : list A) : result (list B) :=
  match xs with
  | [] => Ok []
  | x :: xs' => let* y := f x in let* ys := traverse f xs' in Ok (y :: ys)
  end.

Definition read_int (v : value) : result Z :=
  match v with
  | VInt z => Ok z
  | VRef _ => Raise TypeError
  end.

Definition read_route (h : store) (v : value) : result (list Z) :=
  let* xs := deref h v in traverse read_int xs.

Definition read_routes (h : store) (routes : loc) : result (list (list Z)) :=
  let* vs := deref h (VRef routes) in traverse (read_route h) vs.

(** ** The move operator *)

(** [[route[:] for route in routes]]: one new list per element, in order. *)
Fixpoint copy_routes (h : store) (vs : list value) : result (list value * store) :=
  match vs with
  | [] => Ok ([], h)
  | route :: vs' =>
      let* xs := deref h route in
      let '(l, h) := alloc h xs in
      let* '(ls, h) := copy_routes h vs' in
      Ok (VRef l :: ls, h)
  end.

(** [generate_new_solution(routes)] on the list object at [routes]. *)
Definition generate_new_solution (routes : loc) (h : store) (g : rng)
  : result (loc * store * rng) :=
  let* vs := deref h (VRef routes) in
  let* '(copies, h) := copy_routes h vs in
  let '(l, h) := alloc h copies in
  let new_routes := VRef l in
  let* '(vehicle1, vehicle2, g) := sample2 (length copies) g in
  let vehicle1 := Z.of_nat vehicle1 in
  let vehicle2 := Z.of_nat vehicle2 in
  let* r1 := subscript h new_routes vehicle1 in
  let* t1 := truthy h r1 in
  let* t2 := (if t1
              then let* r2 := subscript h new_routes vehicle2 in truthy h r2
              else Ok false) in
  if t2 then
    let* n1 := (let* r := subscript h new_routes vehicle1 in length_of h r) in
    let* '(i, g) := randint 1 (n1 - 2) g in
    let* n2 := (let* r := subscript h new_routes vehicle2 in length_of h r) in
    let* '(j, g) := randint 1 (n2 - 2) g in
    let* w1 := (let* r := subscript h new_routes vehicle2 in subscript h r j) in
    let* w2 := (let* r := subscript h new_routes vehicle1 in subscript h r i) in
    let* h := (let* r := subscript h new_routes vehicle1 in store_subscript h r i w1) in
    let* h := (let* r := subscript h new_routes vehicle2 in store_subscript h r j w2) in
    Ok (l, h, g)
  else Ok (l, h, g).

(** A solution laid out in a store: the routes first, then the outer list. *)
Fixpoint alloc_routes (h : store) (routes : list (list Z)) : list value * store :=
  match routes with
  | [] => ([], h)
  | route :: routes' =>
      let '(l, h) := alloc h (VInt <$> route) in
      let '(ls, h) := alloc_routes h routes' in
      (VRef l :: ls, h)
  end.

Definition alloc_solution (h : store) (routes : list (list Z)) : loc * store :=
  let '(ls, h) := alloc_routes h routes in alloc h ls.

(** ** Python numbers

    An [int] is unbounded; a [float] is a binary64 number. *)
Inductive number :=
  | Int (z : Z)
  | Float (f : spec_float).

Abbreviation pos_inf := (S754_infinity false).
Abbreviation neg_inf := (S754_infinity true).
Abbreviation pos_zero := (S754_zero false).

(** [float(z)]: rounded to nearest, ties to even; an integer too large for
    a float raises [OverflowError]. *)
Definition float_of_int (z : Z) : result spec_float :=
  match binary_normalize 53 1024 z 0 false with
  | S754_zero s => Ok (S754_zero s)
  | S754_finite s m e => Ok (S754_finite s m e)
  | S754_infinity _ | S754_nan => Raise OverflowError
  end.

Definition to_float (x : number) : result spec_float :=
  match x with
  | Int z => float_of_int z
  | Float f => Ok f
  end.

(** A binary operator: on two integers it is exact, otherwise both operands
    are taken as floats. *)
Definition arith (iop : Z → Z → Z) (fop : spec_float → spec_float → spec_float)
    (x y : number) : result number :=
  match x, y with
  | Int c, Int d => Ok (Int (iop c d))
  | _, _ =>
      let* fx := to_float x in
      let* fy := to_float y in
      Ok (Float (fop fx fy))
  end.

Definition py_add := arith Z.add (SFadd 53 1024).
Definition py_sub := arith Z.sub (SFsub 53 1024).
Definition py_mul := arith Z.mul (SFmul 53 1024).

(** An integer as an exact, unrounded operand of a division. *)
Definition exact (z : Z) : spec_float :=
  match z with
  | Z0 => pos_zero
  | Zpos p => S754_finite false p 0
  | Zneg p => S754_finite true p 0
  end.

(** [x / y]: always a float. Two integers give the correctly rounded
    quotient; a zero divisor raises [ZeroDivisionError]. *)
Definition py_truediv (x y : number) : result spec_float :=
  match x, y with
  | Int c, Int d =>
      if bool_decide (d = 0) then Raise ZeroDivisionError
      else
        match SFdiv 53 1024 (exact c) (exact d) with
        | S754_infinity _ => Raise OverflowError
        | r => Ok r
        end
  | _, _ =>
      let* fx := to_float x in
      let* fy := to_float y in
      match fy with
      | S754_zero _ => Raise ZeroDivisionError
      | _ => Ok (SFdiv 53 1024 fx fy)
      end
  end.

(** The float [1.0]. *)
Definition one : spec_float :=
  Eval vm_compute in binary_normalize 53 1024 1 0 false.

(** [t > 1]; the integer [1] is the float [1.0] exactly. *)
Definition gt_one (t : number) : bool :=
  match t with
  | Int z => bool_decide (z > 1)
  | Float f => SFltb one f
  end.

(** A cost as a number: the integer total or [float('inf')]. *)
Definition cost_number (c : cost) : number :=
  match c with
  | Fin z => Int z
  | Inf => Float pos_inf
  end.

(** [random.uniform(a, b)], which is [a + (b - a) * random()]. *)
Definition uniform (a b : number) (g : rng) : result (spec_float * rng) :=
  let '(r, g) := random g in
  let* w := py_sub b a in
  let* p := py_mul w (Float r) in
  let* u := py_add a p in
  let* u := to_float u in
  Ok (u, g).

(** [math.exp]: the C library's [exp] on finite arguments, the IEEE 754
    values at the infinities and at NaN; a result that overflows raises
    [OverflowError] and an invalid one [ValueError]. *)
Definition math_exp (libm_exp : spec_float → spec_float) (x : spec_float)
  : result spec_float :=
  match x with
  | S754_nan => Ok S754_nan
  | S754_infinity true => Ok pos_zero
  | S754_infinity false => Ok pos_inf
  | _ =>
      match libm_exp x with
      | S754_infinity _ => Raise OverflowError
      | S754_nan => Raise ValueError
      | r => Ok r
      end
  end.

(** ** The annealing engine *)

(** The literal [0.99], that is [0x1.fae147ae147aep-1]. *)
Definition cooling_rate : spec_float := S754_finite false 8917127262193582 (-53).

(** The variables of the loop, with the object store and the generator. *)
Record sa_state := SaState {
  current_routes : loc;
  best_routes : loc;
  best_cost : cost;
  temperature : number;
  heap : store;
  gen : rng
}.

(** How a bounded run of the loop ends. *)
Inductive outcome (A : Type) :=
  | Done (v : A)
  | Failed (e : exn)
  | OutOfFuel.
Arguments Done {A} v.
Arguments Failed {A} e.
Arguments OutOfFuel {A}.

Section Annealing.
(** The C library's exponential, and the notebook's global variables
    [feasible_routes] and [num_vehicles] that the functions read. *)
Variable libm_exp : spec_float → spec_float.
Variable global_feasible_routes : loc.
Variable global_num_vehicles : Z.

(** The arguments of [simulated_annealing]. *)
Variables (cij tij : gmap (Z * Z) Z) (a b : gmap Z Z) (q : Z) (di : gmap Z Z).
Variable initial_routes : loc.
Variable num_vehicles : Z.

(** [calculate_cost(x, cij, tij, a, b, q, di, routes)] on a list object. *)
Definition cost_of (h : store) (routes : loc) : result cost :=
  let x := new_ledger num_vehicles in
  let* routes := read_routes h routes in
  calculate_cost global_num_vehicles x cij tij a b q di routes.

(** The statements before the loop. The argument [initial_routes] is not
    read: the search starts from the global [feasible_routes]. *)
#[using="global_feasible_routes global_num_vehicles cij tij a b q di initial_routes num_vehicles"] Definition sa_init (h : store) (g : rng) : result sa_state :=
  let current_routes := global_feasible_routes in
  let best_routes := current_routes in
  let* best_cost := cost_of h best_routes in
  let temperature := Int 1000 in
  Ok (SaState current_routes best_routes best_cost temperature h g).

(** [cost < best_cost or
     random.uniform(0, 1) < math.exp((best_cost - cost) / temperature)] *)
Definition accepts (cost best_cost : cost) (temperature : number) (g : rng)
  : result (bool * rng) :=
  if cost_lt cost best_cost then Ok (true, g)
  else
    let* '(u, g) := uniform (Int 0) (Int 1) g in
    let* d := py_sub (cost_number best_cost) (cost_number cost) in
    let* r := py_truediv d temperature in
    let* p := math_exp libm_exp r in
    Ok (SFltb u p, g).

(** One iteration of the loop body. *)
Definition sa_body (st : sa_state) : result sa_state :=
  let* '(new_routes, h, g) :=
    generate_new_solution (current_routes st) (heap st) (gen st) in
  let* cost := cost_of h new_routes in
  let* '(accepted, g) := accepts cost (best_cost st) (temperature st) g in
  let current_routes := if accepted then new_routes else current_routes st in
  let improved := accepted && cost_lt cost (best_cost st) in
  let best_cost := if improved then cost else best_cost st in
  let best_routes := if improved then new_routes else best_routes st in
  let* temperature := py_mul (temperature st) (Float cooling_rate) in
  Ok (SaState current_routes best_routes best_cost temperature h g).

(** [while temperature > 1: ...], for at most [fuel] iterations. *)
Fixpoint sa_loop (fuel : nat) (st : sa_state) : outcome sa_state :=
  if gt_one (temperature st) then
    match fuel with
    | O => OutOfFuel
    | S fuel =>
        match sa_body st with
        | Ok st => sa_loop fuel st
        | Raise e => Failed e
        end
    end
  else Done st.

(** The state after [n] passes through the loop test: the body runs while
    the temperature is above [1], and the state stays once it is not. *)
Fixpoint sa_iterate (n : nat) (st : sa_state) : result sa_state :=
  match n with
  | O => Ok st
  | S n =>
      if gt_one (temperature st)
      then let* st := sa_body st in sa_iterate n st
      else Ok st
  end.

(** [simulated_annealing(cij, tij, a, b, q, di, initial_routes,
    num_vehicles)]: the pair [(best_routes, best_cost)], with the store
    and the generator it leaves. *)
#[using="All"] Definition simulated_annealing (fuel : nat) (h : store) (g : rng)
  : outcome (loc * cost * store * rng) :=
  match sa_init h g with
  | Raise e => Failed e
  | Ok st =>
      match sa_loop fuel st with
      | Done st => Done (best_routes st, best_cost st, heap st, gen st)
      | Failed e => Failed e
      | OutOfFuel => OutOfFuel
      end
  end.
End Annealing.

(** ** The move as a function on routes

    What [generate_new_solution] computes, read off the store: the same
    draws, and the exchange of one element between two routes. The store
    version is related to it by [generate_new_solution_move] below. *)
Definition move (routes : list (list Z)) (g : rng)
  : result (list (list Z) * rng) :=
  let* '(vehicle1, vehicle2, g) := sample2 (length routes) g in
  let r1 := routes !!! vehicle1 in
  let r2 := routes !!! vehicle2 in
  if bool_decide (r1 ≠ []) && bool_decide (r2 ≠ []) then
    let* '(i, g) := randint 1 (Z.of_nat (length r1) - 2) g in
    let* '(j, g) := randint 1 (Z.of_nat (length r2) - 2) g in
    let i := Z.to_nat i in
    let j := Z.to_nat j in
    Ok (<[vehicle2 := <[j := r1 !!! i]> r2]>
          (<[vehicle1 := <[i := r2 !!! j]> r1]> routes), g)
  else Ok (routes, g).

(** A store holds the route [r] at [v], and the solution [rs] at [l]. *)
Definition repr_route (h : store) (v : value) (r : list Z) : Prop :=
  ∃ l, v = VRef l ∧ h !! l = Some (VInt <$> r).

Definition repr_routes (h : store) (l : loc) (rs : list (list Z)) : Prop :=
  ∃ vs, h !! l = Some vs ∧ Forall2 (repr_route h) vs rs.

(** ** The instance generator *)

(** [list(range(lo, hi))] *)
Definition py_range (lo hi : Z) : list Z := seqZ lo (hi - lo).

(** The dictionary returned by [generate_vrptw_parameters]. *)
Module Parameters.
Record t := Build {
  V : list Z;
  N : list Z;
  C : list Z;
  cij : gmap (Z * Z) Z;
  tij : gmap (Z * Z) Z;
  di : gmap Z Z;
  q : Z;
  a : gmap Z Z;
  b : gmap Z Z;
  K : Z
}.
End Parameters.

(** [{k: random.randint(lo, hi) for k in keys}]: one draw per key, in
    order; a repeated key keeps its last draw. *)
Fixpoint draw_dict `{Countable T} (keys : list T) (lo hi : Z) (d : gmap T Z)
    (g : rng) : result (gmap T Z * rng) :=
  match keys with
  | [] => Ok (d, g)
  | k :: keys =>
      let* '(v, g) := randint lo hi g in
      draw_dict keys lo hi (<[k := v]> d) g
  end.

(** [{i: random.randint(a[i] + 1, hi) for i in N}] *)
Fixpoint draw_ends (keys : list Z) (a : gmap Z Z) (hi : Z) (d : gmap Z Z)
    (g : rng) : result (gmap Z Z * rng) :=
  match keys with
  | [] => Ok (d, g)
  | i :: keys =>
      let* ai := getitem a i in
      let* '(v, g) := randint (ai + 1) hi g in
      draw_ends keys a hi (<[i := v]> d) g
  end.

(** The keys [(i, j) for i in N for j in N if i != j], in order. *)
Definition arcs_of (N : list Z) : list (Z * Z) :=
  i ← N; (λ j, (i, j)) <$> filter (λ j, i ≠ j) N.

(** [generate_vrptw_parameters(num_vehicles, num_customers, cost_range,
    time_range, demand_range, capacity, time_window_range, large_constant,
    seed)]. [random.seed(seed)] puts the generator in the state [reseed seed],
    a function of the seed alone. *)
Definition generate_vrptw_parameters (num_vehicles num_customers : Z)
    (cost_range time_range demand_range : Z * Z) (capacity : Z)
    (time_window_range : Z * Z) (large_constant : Z) (seed : option Z)
    (reseed : Z → rng) (g : rng) : result (Parameters.t * rng) :=
  let g := match seed with Some s => reseed s | None => g end in
  let V := py_range 1 (num_vehicles + 1) in
  let N := py_range 0 (num_customers + 2) in
  let C := py_range 1 (num_customers + 1) in
  let* '(cij, g) := draw_dict (arcs_of N) cost_range.1 cost_range.2 ∅ g in
  let* '(tij, g) := draw_dict (arcs_of N) time_range.1 time_range.2 ∅ g in
  let* '(di, g) := draw_dict C demand_range.1 demand_range.2 ∅ g in
  let q := capacity in
  let* '(a, g) :=
    draw_dict N time_window_range.1 time_window_range.2 ∅ g in
  let* '(b, g) := draw_ends N a time_window_range.2 ∅ g in
  let K := large_constant in
  let a := <[0 := 0]> a in
  let b := <[0 := time_window_range.2]> b in
  let a := <[num_customers + 1 := 0]> a in
  let b := <[num_customers + 1 := time_window_range.2]> b in
  Ok (Parameters.Build V N C cij tij di q a b K, g).

(** ** Auxiliary definitions for the proofs *)

(** The sign test of a float: the negative numbers and minus infinity. *)
Definition is_negative (f : spec_float) : bool :=
  match f with
  | S754_finite true _ _ | S754_infinity true => true
  | _ => false
  end.

(** The loop stops within [n] iterations from the temperature [t]. *)
Fixpoint halts_within (n : nat) (t : number) : bool :=
  if gt_one t then
    match n with
    | O => false
    | S n =>
        match py_mul t (Float cooling_rate) with
        | Ok t => halts_within n t
        | Raise _ => true
        end
    end
  else true.

(** The concrete travel times, windows and demands of the notebook, read
    one key at a time. *)
Ltac notebook_lookup m :=
  repeat match goal with
         | |- context [m !! ?k] =>
             let v := eval vm_compute in (m !! k) in
             change (m !! k) with v
         end.

(** The tests of the walk on closed integers. *)
Ltac closed_tests :=
  repeat match goal with
         | |- context [bool_decide ?P] =>
             let v := eval vm_compute in (bool_decide P) in
             match v with
             | true => change (bool_decide P) with true
             | false => change (bool_decide P) with false
             end
         end;
  cbv iota.

#[local] Arguments alloc : simpl never.

(** ** Quantities read off a solution *)

(** The arcs [(route[idx], route[idx + 1])] a route walks. *)
Definition route_arcs (route : list Z) : list (Z * Z) := zip route (tail route).

(** The sum of the costs of the arcs of all routes (an arc without a cost
    counts for nothing). *)
Definition total_arc_cost (cij : gmap (Z * Z) Z) (routes : list (list Z)) : Z :=
  foldr Z.add 0 ((λ arc, default 0 (cij !! arc)) <$> (routes ≫= route_arcs)).

(** The demand loaded along a route: the demands of its nodes after the
    first one. *)
Definition route_demand (di : gmap Z Z) (route : list Z) : Z :=
  foldr Z.add 0 ((λ j, default 0 (di !! j)) <$> tail route).

(** A route starts at node [0] and ends at node [len(b) - 1]. *)
Definition good_endpoints (b : gmap Z Z) (route : list Z) : Prop :=
  head route = Some 0 ∧ last route = Some (len b - 1).

(** The outcome of a walk of [calculate_cost] without its ledger. *)
Definition walked (r : result (flow cost (ledger * Z))) : result (flow cost Z) :=
  match r with
  | Ok (Returned c) => Ok (Returned c)
  | Ok (Running (_, total_cost)) => Ok (Running total_cost)
  | Raise e => Raise e
  end.

(** A cost moved up by [t]; the sentinel stays. *)
Definition cost_add (t : Z) (c : cost) : cost :=
  match c with
  | Fin z => Fin (t + z)
  | Inf => Inf
  end.

(** Two solutions with the same frame: as many routes, and route by route
    the same length, first node and last node. *)
Definition same_frame (new rs : list (list Z)) : Prop :=
  Forall2 (λ r' r, length r' = length r ∧ head r' = head r ∧ last r' = last r)
          new rs.

(** The loop test holds at each of the first [n + 1] passes from the
    temperature [t]. *)
Fixpoint stays_hot (n : nat) (t : number) : bool :=
  gt_one t &&
  match n with
  | O => true
  | S n =>
      match py_mul t (Float cooling_rate) with
      | Ok t => stays_hot n t
      | Raise _ => true
      end
  end.

(** What the loop keeps true of its state, for a start solution [rs0] held
    in the store [h0]: the store has only grown; the current and the best
    solution can be read, visit the nodes of [rs0] and have its frame; and
    the best cost is the cost of the best solution. *)
Definition sa_invariant (cost_at : store → loc → result cost) (h0 : store)
    (rs0 : list (list Z)) (st : sa_state) : Prop :=
  h0 ⊆ heap st ∧
  (∃ rs, read_routes (heap st) (current_routes st) = Ok rs ∧
         concat rs ≡ₚ concat rs0 ∧ same_frame rs rs0) ∧
  (∃ rs, read_routes (heap st) (best_routes st) = Ok rs ∧
         concat rs ≡ₚ concat rs0 ∧ same_frame rs rs0) ∧
  cost_at (heap st) (best_routes st) = Ok (best_cost st).

(** The specification's terminal condition [temperature <= 1], against the
    constant [1]: on an integer exactly, on a float as IEEE 754 compares it
    with [1.0]. *)
Definition at_most_one (t : number) : bool :=
  match t with
  | Int z => bool_decide (z ≤ 1)
  | Float f => SFleb f one
  end.

(** The temperature [t] after [k] coolings: [t * 0.99 * ... * 0.99], one
    product after the other, as Python computes it. *)
Fixpoint cooled (k : nat) (t : number) : result number :=
  match k with
  | O => Ok t
  | S k => let* t := py_mul t (Float cooling_rate) in cooled k t
  end.

(** A run that returns. *)
Definition completes {A} (o : outcome A) : bool :=
  match o with Done _ => true | _ => false end.

(** * Properties *)

(** ** The notebook's recorded outputs (cells 7 to 9 and 12 to 14) *)

Module NotebookCells.
Import Notebook.

Example cell_7 : is_feasible exact_routes tij di q a b K = Ok true.
Proof. vm_compute. reflexivity. Qed.

Example cell_8 : is_feasible infeasible_routes tij di q a b K = Ok false.
Proof. vm_compute. reflexivity. Qed.

Example cell_9 : is_feasible feasible_routes tij di q a b K = Ok true.
Proof. vm_compute. reflexivity. Qed.

Example cell_12 :
  calculate_cost num_vehicles x cij tij a b q di exact_routes = Ok (Fin 128).
Proof. vm_compute. reflexivity. Qed.

Example cell_13 :
  calculate_cost num_vehicles x cij tij a b q di infeasible_routes = Ok (Fin 103).
Proof. vm_compute. reflexivity. Qed.

Example cell_14 :
  calculate_cost num_vehicles x cij tij a b q di feasible_routes = Ok (Fin 149).
Proof. vm_compute. reflexivity. Qed.
End NotebookCells.

Example cooling_rate_nearest :
  SFdiv 53 1024 (exact 99) (exact 100) = cooling_rate.
Proof. vm_compute. reflexivity. Qed.

(** ** Unfolding equations and the error monad *)

Lemma bind_ok {A B : Type} (m : result A) (f : A → result B) (w : B) :
  bind m f = Ok w → ∃ v, m = Ok v ∧ f v = Ok w.
Proof. destruct m as [v|e]; simpl; [eauto | discriminate]. Qed.

Lemma getitem_ok `{Countable K} {V : Type} (d : gmap K V) (k : K) (v : V) :
  getitem d k = Ok v ↔ d !! k = Some v.
Proof. unfold getitem. destruct (d !! k); split; congruence. Qed.

(** Inversion of a successful [let*]. *)
Ltac bind_inv H :=
  let v := fresh "v" in
  let Hv := fresh "Hv" in
  apply bind_ok in H as (v & Hv & H).

Section EvaluatorFacts.
Variables (cij tij : gmap (Z * Z) Z) (a b : gmap Z Z) (q : Z) (di : gmap Z Z).

Lemma is_feasible_route_step i j rest load arrival_time :
  is_feasible_route tij di q a b (i :: j :: rest) load arrival_time =
    let load := match di !! j with Some d => load + d | None => load end in
    if bool_decide (is_Some (di !! j)) && bool_decide (load > q)
    then Ok (Returned false)
    else
      let* t := getitem tij (i, j) in
      let* aj := getitem a j in
      let arrival_time := Z.max (arrival_time + t) aj in
      let* bj := getitem b j in
      if bool_decide (arrival_time > bj) then Ok (Returned false)
      else is_feasible_route tij di q a b (j :: rest) load arrival_time.
Proof. reflexivity. Qed.

Lemma calculate_cost_route_step k i j rest x total_cost load arrival_time :
  calculate_cost_route cij tij a b q di k (i :: j :: rest) x total_cost load
      arrival_time =
    let x := <[inr (k, i, j) := One]> x in
    let* c := getitem cij (i, j) in
    let total_cost := total_cost + c in
    let* t := getitem tij (i, j) in
    let* aj := getitem a j in
    let arrival_time := Z.max (arrival_time + t) aj in
    let* bj := getitem b j in
    if bool_decide (arrival_time > bj) then Ok (Returned Inf)
    else
      match di !! j with
      | Some d =>
          let load := load + d in
          if bool_decide (load > q) then Ok (Returned Inf)
          else calculate_cost_route cij tij a b q di k (j :: rest) x
                 total_cost load arrival_time
      | None =>
          calculate_cost_route cij tij a b q di k (j :: rest) x total_cost
            load arrival_time
      end.
Proof. reflexivity. Qed.

(** A route of fewer than two nodes has no arc: the walk ends at once. *)
Lemma calculate_cost_route_short k route x total_cost load arrival_time :
  (length route < 2)%nat →
  calculate_cost_route cij tij a b q di k route x total_cost load arrival_time
    = Ok (Running (x, total_cost)).
Proof.
  destruct route as [|i [|j rest]]; simpl; intros Hlen; try reflexivity; lia.
Qed.

(** The walk of [is_feasible] only ever returns [False]. *)
Lemma is_feasible_route_returns route load arrival_time v :
  is_feasible_route tij di q a b route load arrival_time = Ok (Returned v) →
  v = false.
Proof.
  revert load arrival_time.
  induction route as [|i route IH]; intros load arrival_time; [discriminate|].
  destruct route as [|j rest]; [discriminate|].
  rewrite is_feasible_route_step. cbv zeta.
  destruct (_ && _); [congruence|].
  intros H. bind_inv H. bind_inv H. bind_inv H.
  case_bool_decide; [congruence | eauto].
Qed.

(** A walk that [is_feasible] completes is completed by [calculate_cost]
    too, provided every arc with a travel time has a cost. *)
Lemma feasible_walk_has_cost k route x total_cost load arrival_time s :
  (∀ i j, is_Some (tij !! (i, j)) → is_Some (cij !! (i, j))) →
  is_feasible_route tij di q a b route load arrival_time = Ok (Running s) →
  ∃ x' total', calculate_cost_route cij tij a b q di k route x total_cost
                 load arrival_time = Ok (Running (x', total')).
Proof.
  intros Hdom. revert x total_cost load arrival_time.
  induction route as [|i route IH]; intros x total_cost load arrival_time;
    [simpl; eauto|].
  destruct route as [|j rest]; [simpl; eauto|].
  rewrite is_feasible_route_step, calculate_cost_route_step. cbv zeta.
  destruct (bool_decide (is_Some (di !! j)) && _) eqn:Hcap; [discriminate|].
  intros H. bind_inv H. bind_inv H. bind_inv H.
  case_bool_decide as Hlate; [discriminate|].
  destruct (Hdom i j) as [c Hc]; [apply getitem_ok in Hv; eauto|].
  apply getitem_ok in Hc. rewrite Hc, Hv, Hv0, Hv1. simpl.
  rewrite bool_decide_false by done.
  destruct (di !! j) as [d|] eqn:Hd.
  - rewrite bool_decide_true in Hcap by eauto. simpl in Hcap.
    rewrite Hcap. eauto.
  - eauto.
Qed.

Lemma feasible_routes_have_cost k routes x total_cost :
  (∀ i j, is_Some (tij !! (i, j)) → is_Some (cij !! (i, j))) →
  is_feasible_routes tij di q a b routes = Ok true →
  ∃ c, calculate_cost_routes cij tij a b q di k routes x total_cost = Ok (Fin c).
Proof.
  intros Hdom. revert k x total_cost.
  induction routes as [|route routes IH]; intros k x total_cost; simpl;
    [eauto|].
  destruct (is_feasible_route _ _ _ _ _ route 0 0) as [[v|s]|e] eqn:Hwalk;
    [|
    |discriminate].
  - apply is_feasible_route_returns in Hwalk as ->. discriminate.
  - intros H. bind_inv H. destruct v; [discriminate|].
    destruct (feasible_walk_has_cost k route x total_cost 0 0 s Hdom Hwalk)
      as (x' & total' & ->).
    eauto.
Qed.

Lemma short_routes_cost k routes x total_cost :
  Forall (λ route, (length route < 2)%nat) routes →
  calculate_cost_routes cij tij a b q di k routes x total_cost
    = Ok (Fin total_cost).
Proof.
  intros Hshort. revert k x.
  induction Hshort as [|route routes Hlen _ IH]; intros k x; simpl;
    [reflexivity|].
  rewrite calculate_cost_route_short by done. apply IH.
Qed.
End EvaluatorFacts.

(** ** The cost evaluator and the feasibility check *)

(** C1, as the specification states it, fails on the notebook's own
    solutions: [exact_routes] is feasible and costs 128, [infeasible_routes]
    is rejected by [is_feasible] (its second route does not end at the
    depot) and yet costs 103, because [calculate_cost] checks neither
    coverage nor endpoints; and 128 is not below 103. *)
Lemma sentinel_dominance_counterexample :
  is_feasible Notebook.exact_routes Notebook.tij Notebook.di Notebook.q
    Notebook.a Notebook.b Notebook.K = Ok true ∧
  is_feasible Notebook.infeasible_routes Notebook.tij Notebook.di Notebook.q
    Notebook.a Notebook.b Notebook.K = Ok false ∧
  calculate_cost Notebook.num_vehicles Notebook.x Notebook.cij Notebook.tij
    Notebook.a Notebook.b Notebook.q Notebook.di Notebook.exact_routes
    = Ok (Fin 128) ∧
  calculate_cost Notebook.num_vehicles Notebook.x Notebook.cij Notebook.tij
    Notebook.a Notebook.b Notebook.q Notebook.di Notebook.infeasible_routes
    = Ok (Fin 103) ∧
  cost_lt (Fin 128) (Fin 103) = false.
Proof. repeat split; vm_compute; reflexivity. Qed.

(** C3: the coverage test compares the size of the set of visited
    customers with the number of demands, and a set forgets repetitions.
    On the notebook's instance the solution that visits customer 2 in both
    routes passes every check. *)
Theorem duplicate_customer_accepted :
  is_feasible [[0; 2; 1; 4]; [0; 2; 3; 4]] Notebook.tij Notebook.di Notebook.q
    Notebook.a Notebook.b Notebook.K = Ok true.
Proof. vm_compute. reflexivity. Qed.

(** C9 (scenario B): with the five arc costs 44, 13, 28, 18 and 25, and the
    travel times, time windows, demands and capacity of the worked example,
    [[0,1,4],[0,2,3,4]] evaluates to exactly 128. *)
Theorem scenario_b_cost (num_vehicles : Z) (x : ledger) (cij : gmap (Z * Z) Z) :
  cij !! (0, 1) = Some 44 →
  cij !! (1, 4) = Some 13 →
  cij !! (0, 2) = Some 28 →
  cij !! (2, 3) = Some 18 →
  cij !! (3, 4) = Some 25 →
  calculate_cost num_vehicles x cij Notebook.tij Notebook.a Notebook.b
    Notebook.q Notebook.di Notebook.exact_routes = Ok (Fin 128).
Proof.
  intros H01 H14 H02 H23 H34.
  unfold calculate_cost, Notebook.exact_routes, calculate_cost_routes.
  repeat (rewrite calculate_cost_route_step; unfold getitem; cbv zeta;
          rewrite ?H01, ?H14, ?H02, ?H23, ?H34;
          notebook_lookup Notebook.tij; notebook_lookup Notebook.a;
          notebook_lookup Notebook.b; notebook_lookup Notebook.di;
          cbn [bind]; closed_tests;
          rewrite ?calculate_cost_route_short by (simpl; lia)).
  reflexivity.
Qed.

Lemma scenario_b_cost_witness :
  calculate_cost Notebook.num_vehicles Notebook.x Notebook.cij Notebook.tij
    Notebook.a Notebook.b Notebook.q Notebook.di Notebook.exact_routes
    = Ok (Fin 128).
Proof. apply scenario_b_cost; vm_compute; reflexivity. Defined.

(** C10: a solution whose routes all have fewer than two nodes (the empty
    solution and the all-empty routes included) has no arc to walk, and
    [calculate_cost] returns the integer 0 without reading a single cost,
    travel time, window or demand. *)
Theorem short_routes_cost_zero (num_vehicles : Z) (x : ledger)
    (cij tij : gmap (Z * Z) Z) (a b : gmap Z Z) (q : Z) (di : gmap Z Z)
    (routes : list (list Z)) :
  Forall (λ route, (length route < 2)%nat) routes →
  calculate_cost num_vehicles x cij tij a b q di routes = Ok (Fin 0).
Proof. intros Hshort. unfold calculate_cost. by apply short_routes_cost. Qed.

Lemma short_routes_cost_zero_witness :
  calculate_cost 2 ∅ ∅ ∅ ∅ ∅ 20 ∅ [[]; [0]; []] = Ok (Fin 0).
Proof.
  apply short_routes_cost_zero. repeat constructor.
Defined.

(** ** Subscripts, draws and the object store *)

Lemma list_getitem_lookup {A : Type} (xs : list A) (i : Z) (v : A) :
  0 ≤ i → xs !! Z.to_nat i = Some v → list_getitem xs i = Ok v.
Proof.
  intros Hi Hv. unfold list_getitem, norm_index.
  assert (Z.to_nat i < length xs)%nat by (by eapply lookup_lt_Some).
  rewrite (bool_decide_false (i < 0)) by lia.
  rewrite bool_decide_true by lia.
  simpl. by rewrite Hv.
Qed.

Lemma list_setitem_insert {A : Type} (xs : list A) (i : Z) (v : A) :
  0 ≤ i < Z.of_nat (length xs) →
  list_setitem xs i v = Ok (<[Z.to_nat i := v]> xs).
Proof.
  intros Hi. unfold list_setitem, norm_index.
  rewrite (bool_decide_false (i < 0)) by lia.
  by rewrite bool_decide_true by lia.
Qed.

Lemma randbelow_lt (n : nat) (g : rng) :
  (0 < n)%nat → (fst (randbelow n g) < n)%nat.
Proof.
  intros Hn. unfold randbelow. destruct (next g) as [d g']. simpl.
  assert (d mod N.of_nat n < N.of_nat n)%N by (apply N.mod_lt; lia). lia.
Qed.

Lemma randint_range (lo hi : Z) (g g' : rng) (i : Z) :
  randint lo hi g = Ok (i, g') → lo ≤ i ≤ hi.
Proof.
  unfold randint. case_bool_decide as Hw; [|discriminate].
  pose proof (randbelow_lt (Z.to_nat (hi + 1 - lo)) g ltac:(lia)) as Hlt.
  destruct (randbelow _ g) as [r g1]. simpl in Hlt. intros [= <- <-]. lia.
Qed.

Lemma randint_empty (lo hi : Z) (g : rng) :
  hi < lo → randint lo hi g = Raise ValueError.
Proof. intros Hlt. unfold randint. by rewrite bool_decide_false by lia. Qed.

Lemma sample2_range (n : nat) (g g' : rng) (v1 v2 : nat) :
  sample2 n g = Ok (v1, v2, g') → (v1 < n)%nat ∧ (v2 < n)%nat ∧ v1 ≠ v2.
Proof.
  unfold sample2. case_bool_decide as Hn; [discriminate|].
  pose proof (randbelow_lt n g ltac:(lia)) as H1.
  destruct (randbelow n g) as [r1 g1]. simpl in H1.
  pose proof (randbelow_lt (n - 1) g1 ltac:(lia)) as H2.
  destruct (randbelow (n - 1) g1) as [r2 g2]. simpl in H2.
  intros [= <- <- <-]. case_bool_decide; lia.
Qed.

Lemma alloc_fresh (h h' : store) (xs : list value) (l : loc) :
  alloc h xs = (l, h') → h !! l = None ∧ h' = <[l := xs]> h.
Proof.
  unfold alloc. intros [= <- <-]. split; [|done].
  apply not_elem_of_dom, is_fresh.
Qed.

(** The copies made by the list comprehension: new, pairwise distinct
    objects with the contents of the routes, in a store that extends the
    old one. *)
Lemma copy_routes_repr (h : store) (vs : list value) (rs : list (list Z)) :
  Forall2 (repr_route h) vs rs →
  ∃ ls h',
    copy_routes h vs = Ok (VRef <$> ls, h') ∧
    h ⊆ h' ∧
    NoDup ls ∧
    Forall (λ l, h !! l = None) ls ∧
    Forall2 (λ l r, h' !! l = Some (VInt <$> r)) ls rs.
Proof.
  intros Hrepr. revert h Hrepr.
  induction rs as [|r rs IH] in vs |- *; intros h Hrepr.
  - apply Forall2_nil_inv_r in Hrepr as ->.
    exists [], h. simpl. repeat split; [done|constructor|constructor|constructor].
  - apply Forall2_cons_inv_r in Hrepr as (v & vs' & (p & -> & Hp) & Hrest & ->).
    simpl. rewrite Hp. simpl.
    unfold alloc. set (l := fresh (dom h)).
    assert (h !! l = None) as Hl by apply not_elem_of_dom, is_fresh.
    assert (h ⊆ <[l := VInt <$> r]> h) as Hsub by (by apply insert_subseteq).
    destruct (IH vs' (<[l := VInt <$> r]> h)) as (ls & h' & Hcopy & Hsub' & Hnd & Hfresh & Hcont).
    { eapply Forall2_impl; [exact Hrest|].
      intros v r' (p' & -> & Hp'). exists p'. split; [done|].
      eapply lookup_weaken; eauto. }
    exists (l :: ls), h'. rewrite Hcopy. simpl.
    assert (l ∉ ls) as Hnotin.
    { intros Hin. rewrite Forall_forall in Hfresh.
      specialize (Hfresh l Hin). simpl in Hfresh.
      by rewrite lookup_insert_eq in Hfresh. }
    repeat split.
    + by etrans.
    + by constructor.
    + constructor; [done|].
      eapply Forall_impl; [exact Hfresh|]. intros p' Hp'. simpl in Hp'.
      destruct (decide (l = p')) as [->|Hne];
        [by rewrite lookup_insert_eq in Hp'|by rewrite lookup_insert_ne in Hp'].
    + constructor; [|done].
      eapply lookup_weaken; [|exact Hsub']. by rewrite lookup_insert_eq.
Qed.

Lemma traverse_Forall2 {A B : Type} (f : A → result B) (P : A → B → Prop) :
  (∀ x y, f x = Ok y ↔ P x y) →
  ∀ xs ys, traverse f xs = Ok ys ↔ Forall2 P xs ys.
Proof.
  intros HfP xs. induction xs as [|x xs IH]; intros ys; simpl.
  - split; [intros [= <-]; constructor | by intros ->%Forall2_nil_inv_l].
  - split.
    + intros H. bind_inv H. bind_inv H. injection H as <-.
      constructor; [by apply HfP | by apply IH].
    + intros (y & ys' & Hy & Hys & ->)%Forall2_cons_inv_l.
      apply HfP in Hy as ->. apply IH in Hys as ->. done.
Qed.

Lemma traverse_read_int (xs : list value) (r : list Z) :
  traverse read_int xs = Ok r ↔ xs = VInt <$> r.
Proof.
  rewrite (traverse_Forall2 read_int (λ v z, v = VInt z)).
  - rewrite list_eq_Forall2, Forall2_fmap_r. done.
  - intros [z|l] y; simpl; split; congruence.
Qed.

Lemma read_route_repr (h : store) (v : value) (r : list Z) :
  read_route h v = Ok r ↔ repr_route h v r.
Proof.
  unfold read_route, repr_route, deref. split.
  - intros H. bind_inv H. destruct v as [z|l]; [discriminate|].
    destruct (h !! l) as [xs|] eqn:Hl; [|discriminate].
    injection Hv as <-. apply traverse_read_int in H as ->. eauto.
  - intros (l & -> & Hl). rewrite Hl. simpl. by apply traverse_read_int.
Qed.

(** Reading a solution succeeds exactly on the stores that hold it. *)
Lemma read_routes_repr (h : store) (l : loc) (rs : list (list Z)) :
  read_routes h l = Ok rs ↔ repr_routes h l rs.
Proof.
  unfold read_routes, repr_routes, deref. split.
  - intros H. bind_inv H.
    destruct (h !! l) as [vs|] eqn:Hl; [|discriminate].
    injection Hv as <-. exists vs. split; [done|].
    by apply (traverse_Forall2 _ _ (read_route_repr h)).
  - intros (vs & -> & Hvs). simpl.
    by apply (traverse_Forall2 _ _ (read_route_repr h)).
Qed.

(** A store that grows keeps the solutions it holds. *)
Lemma repr_routes_weaken (h h' : store) (l : loc) (rs : list (list Z)) :
  h ⊆ h' → repr_routes h l rs → repr_routes h' l rs.
Proof.
  intros Hsub (vs & Hl & Hvs). exists vs. split; [by eapply lookup_weaken|].
  eapply Forall2_impl; [exact Hvs|].
  intros v r (p & -> & Hp). exists p. split; [done|by eapply lookup_weaken].
Qed.

Lemma subscript_outer (h : store) (l : loc) (vs : list value) (k : nat) (v : value) :
  h !! l = Some vs → vs !! k = Some v →
  subscript h (VRef l) (Z.of_nat k) = Ok v.
Proof.
  intros Hl Hk. unfold subscript. simpl. rewrite Hl. simpl.
  apply list_getitem_lookup; [lia | by rewrite Nat2Z.id].
Qed.

Lemma subscript_route (h : store) (p : loc) (r : list Z) (i : Z) :
  h !! p = Some (VInt <$> r) → 0 ≤ i < Z.of_nat (length r) →
  subscript h (VRef p) i = Ok (VInt (r !!! Z.to_nat i)).
Proof.
  intros Hp Hi. unfold subscript. simpl. rewrite Hp. simpl.
  apply list_getitem_lookup; [lia|].
  rewrite list_lookup_fmap, list_lookup_lookup_total_lt by lia. done.
Qed.

Lemma store_subscript_route (h : store) (p : loc) (r : list Z) (i z : Z) :
  h !! p = Some (VInt <$> r) → 0 ≤ i < Z.of_nat (length r) →
  store_subscript h (VRef p) i (VInt z)
    = Ok (<[p := VInt <$> <[Z.to_nat i := z]> r]> h).
Proof.
  intros Hp Hi. unfold store_subscript. simpl. rewrite Hp. simpl.
  rewrite list_setitem_insert by (rewrite length_fmap; lia). simpl.
  by rewrite list_fmap_insert.
Qed.

Lemma truthy_route (h : store) (p : loc) (r : list Z) :
  h !! p = Some (VInt <$> r) →
  truthy h (VRef p) = Ok (bool_decide (r ≠ [])).
Proof.
  intros Hp. unfold truthy. simpl. rewrite Hp. simpl. by destruct r.
Qed.

Lemma length_of_route (h : store) (p : loc) (r : list Z) :
  h !! p = Some (VInt <$> r) →
  length_of h (VRef p) = Ok (Z.of_nat (length r)).
Proof.
  intros Hp. unfold length_of. simpl. rewrite Hp. simpl.
  by rewrite length_fmap.
Qed.

(** [generate_new_solution] on a store that holds the solution [rs] at
    [routes] behaves as [move] on [rs]: it raises the same exception, or
    it returns a new list object that holds the moved solution, in a store
    that extends the old one. *)
Lemma generate_new_solution_move (h : store) (routes : loc)
    (rs : list (list Z)) (g : rng) :
  repr_routes h routes rs →
  match move rs g with
  | Raise e => generate_new_solution routes h g = Raise e
  | Ok (new, g') =>
      ∃ l h',
        generate_new_solution routes h g = Ok (l, h', g') ∧
        h ⊆ h' ∧ h !! l = None ∧ repr_routes h' l new
  end.
Proof.
  intros (vs & Hroutes & Hvs).
  destruct (copy_routes_repr h vs rs Hvs)
    as (ls & h1 & Hcopy & Hsub & Hnd & Hfresh & Hcont).
  unfold generate_new_solution, move. simpl. rewrite Hroutes. simpl.
  rewrite Hcopy. simpl. unfold alloc.
  set (l := fresh (dom h1)).
  assert (h1 !! l = None) as Hl by apply not_elem_of_dom, is_fresh.
  set (h2 := <[l := VRef <$> ls]> h1).
  assert (h2 !! l = Some (VRef <$> ls)) as Hl2 by apply lookup_insert_eq.
  assert (h1 ⊆ h2) as Hsub2 by (by apply insert_subseteq).
  pose proof (Forall2_length _ _ _ Hcont) as Hlen.
  rewrite length_fmap, Hlen.
  destruct (sample2 (length rs) g) as [[[v1 v2] g1]|e] eqn:Hsample; simpl;
    [|done].
  apply sample2_range in Hsample as (Hv1 & Hv2 & Hne).
  destruct (lookup_lt_is_Some_2 rs v1 Hv1) as [r1 Hr1].
  destruct (lookup_lt_is_Some_2 rs v2 Hv2) as [r2 Hr2].
  destruct (lookup_lt_is_Some_2 ls v1 ltac:(lia)) as [p1 Hp1].
  destruct (lookup_lt_is_Some_2 ls v2 ltac:(lia)) as [p2 Hp2].
  rewrite (list_lookup_total_correct _ _ _ Hr1).
  rewrite (list_lookup_total_correct _ _ _ Hr2).
  assert (h1 !! p1 = Some (VInt <$> r1)) as Hc1
    by apply (Forall2_lookup_lr _ _ _ _ _ _ Hcont Hp1 Hr1).
  assert (h1 !! p2 = Some (VInt <$> r2)) as Hc2
    by apply (Forall2_lookup_lr _ _ _ _ _ _ Hcont Hp2 Hr2).
  assert (p1 ≠ p2) as Hp12
    by (intros ->; apply Hne; by eapply (NoDup_lookup ls)).
  assert (p1 ≠ l) as Hp1l by congruence.
  assert (p2 ≠ l) as Hp2l by congruence.
  assert (h !! l = None) as Hhl by (by eapply lookup_weaken_None).
  assert (h2 !! p1 = Some (VInt <$> r1)) as Hd1 by (by eapply lookup_weaken).
  assert (h2 !! p2 = Some (VInt <$> r2)) as Hd2 by (by eapply lookup_weaken).
  assert ((VRef <$> ls) !! v1 = Some (VRef p1)) as Ho1
    by (by rewrite list_lookup_fmap, Hp1).
  assert ((VRef <$> ls) !! v2 = Some (VRef p2)) as Ho2
    by (by rewrite list_lookup_fmap, Hp2).
  assert (repr_routes h2 l rs) as Hsame.
  { exists (VRef <$> ls). split; [done|]. apply Forall2_fmap_l.
    eapply Forall2_impl; [exact Hcont|]. intros p r Hp. exists p.
    split; [done|]. eapply lookup_weaken; [exact Hp|exact Hsub2]. }
  assert (h ⊆ h2) as Hsub02 by (by etrans).
  rewrite !(subscript_outer h2 l _ v1 _ Hl2 Ho1).
  rewrite !(subscript_outer h2 l _ v2 _ Hl2 Ho2). cbn [bind].
  rewrite (truthy_route h2 p1 r1 Hd1), (truthy_route h2 p2 r2 Hd2). cbn [bind].
  rewrite (length_of_route h2 p1 r1 Hd1), (length_of_route h2 p2 r2 Hd2).
  cbn [bind].
  destruct (bool_decide (r1 ≠ [])); cbn [bind andb]; [|by exists l, h2].
  destruct (bool_decide (r2 ≠ [])); cbn [bind andb]; [|by exists l, h2].
  destruct (randint 1 (Z.of_nat (length r1) - 2) g1) as [[i g2]|e] eqn:Hi;
    cbn [bind andb]; [|done].
  apply randint_range in Hi.
  destruct (randint 1 (Z.of_nat (length r2) - 2) g2) as [[j g3]|e] eqn:Hj;
    cbn [bind andb]; [|done].
  apply randint_range in Hj.
  rewrite (subscript_route h2 p2 r2 j Hd2) by lia.
  rewrite (subscript_route h2 p1 r1 i Hd1) by lia. cbn [bind].
  rewrite (store_subscript_route h2 p1 r1 i _ Hd1) by lia. cbn [bind].
  set (r1' := <[Z.to_nat i := r2 !!! Z.to_nat j]> r1).
  set (h3 := <[p1 := VInt <$> r1']> h2).
  assert (h3 !! l = Some (VRef <$> ls)) as Hl3
    by (unfold h3; by rewrite lookup_insert_ne).
  assert (h3 !! p2 = Some (VInt <$> r2)) as Hd3
    by (unfold h3; by rewrite lookup_insert_ne).
  rewrite (subscript_outer h3 l _ v2 _ Hl3 Ho2). cbn [bind].
  rewrite (store_subscript_route h3 p2 r2 j _ Hd3) by lia. cbn [bind].
  set (r2' := <[Z.to_nat j := r1 !!! Z.to_nat i]> r2).
  set (h4 := <[p2 := VInt <$> r2']> h3).
  exists l, h4. split; [done|]. split; [|split; [done|]].
  - apply map_subseteq_spec. intros k xs Hk.
    assert (k ≠ p1) as Hk1.
    { intros ->. rewrite Forall_forall in Hfresh.
      rewrite (Hfresh p1) in Hk; [done|]. by eapply list_elem_of_lookup_2. }
    assert (k ≠ p2) as Hk2.
    { intros ->. rewrite Forall_forall in Hfresh.
      rewrite (Hfresh p2) in Hk; [done|]. by eapply list_elem_of_lookup_2. }
    unfold h4, h3. rewrite !lookup_insert_ne by done.
    by eapply lookup_weaken.
  - exists (VRef <$> ls). split.
    { unfold h4. by rewrite lookup_insert_ne. }
    apply Forall2_fmap_l, Forall2_same_length_lookup. split.
    { by rewrite !length_insert. }
    intros k p r Hp Hr. exists p. split; [done|].
    destruct (decide (k = v2)) as [->|Hk2].
    { rewrite list_lookup_insert_eq in Hr by (rewrite length_insert; lia).
      injection Hr as <-. assert (p = p2) as -> by congruence.
      unfold h4. by rewrite lookup_insert_eq. }
    rewrite list_lookup_insert_ne in Hr by done.
    assert (p ≠ p2) as Hpp2.
    { intros ->. apply Hk2. by eapply (NoDup_lookup ls). }
    destruct (decide (k = v1)) as [->|Hk1].
    { rewrite list_lookup_insert_eq in Hr by lia.
      injection Hr as <-. assert (p = p1) as -> by congruence.
      unfold h4, h3. rewrite lookup_insert_ne by done.
      by rewrite lookup_insert_eq. }
    rewrite list_lookup_insert_ne in Hr by done.
    assert (p ≠ p1) as Hpp1.
    { intros ->. apply Hk1. by eapply (NoDup_lookup ls). }
    unfold h4, h3. rewrite !lookup_insert_ne by done.
    eapply lookup_weaken; [|exact Hsub2].
    apply (Forall2_lookup_lr _ _ _ _ _ _ Hcont Hp Hr).
Qed.

(** ** The move operator *)

(** What [move] returns when every route has an interior node: it fails
    only for want of two routes, and otherwise exchanges one interior
    element of one route with one interior element of another. *)
Lemma move_shape (rs : list (list Z)) (g : rng) :
  Forall (λ r, (3 ≤ length r)%nat) rs →
  match move rs g with
  | Ok (new, g') =>
      ∃ v1 v2 i j r1 r2,
        v1 ≠ v2 ∧ rs !! v1 = Some r1 ∧ rs !! v2 = Some r2 ∧
        (0 < i < length r1 - 1)%nat ∧ (0 < j < length r2 - 1)%nat ∧
        new = <[v2 := <[j := r1 !!! i]> r2]> (<[v1 := <[i := r2 !!! j]> r1]> rs)
  | Raise e => e = ValueError ∧ (length rs < 2)%nat
  end.
Proof.
  intros Hlong. unfold move.
  destruct (sample2 (length rs) g) as [[[v1 v2] g1]|e] eqn:Hsample;
    cbn [bind].
  - apply sample2_range in Hsample as (Hv1 & Hv2 & Hne).
    destruct (lookup_lt_is_Some_2 rs v1 Hv1) as [r1 Hr1].
    destruct (lookup_lt_is_Some_2 rs v2 Hv2) as [r2 Hr2].
    rewrite (list_lookup_total_correct _ _ _ Hr1).
    rewrite (list_lookup_total_correct _ _ _ Hr2).
    rewrite Forall_forall in Hlong.
    pose proof (Hlong r1 (list_elem_of_lookup_2 _ _ _ Hr1)) as Hl1.
    pose proof (Hlong r2 (list_elem_of_lookup_2 _ _ _ Hr2)) as Hl2.
    simpl in Hl1, Hl2.
    rewrite !bool_decide_true by (intros ->; simpl in *; lia). cbn [andb].
    destruct (randint 1 (Z.of_nat (length r1) - 2) g1) as [[i g2]|e] eqn:Hi;
      cbn [bind].
    2:{ unfold randint in Hi. rewrite bool_decide_true in Hi by lia.
        by destruct (randbelow _ g1). }
    apply randint_range in Hi.
    destruct (randint 1 (Z.of_nat (length r2) - 2) g2) as [[j g3]|e] eqn:Hj;
      cbn [bind].
    2:{ unfold randint in Hj. rewrite bool_decide_true in Hj by lia.
        by destruct (randbelow _ g2). }
    apply randint_range in Hj.
    exists v1, v2, (Z.to_nat i), (Z.to_nat j), r1, r2.
    repeat split; try done; lia.
  - unfold sample2 in Hsample. case_bool_decide as Hn.
    + by injection Hsample as <-.
    + destruct (randbelow (length rs) g) as [x1 g1].
      by destruct (randbelow (length rs - 1) g1).
Qed.

Lemma insert_interior_head (r : list Z) (i : nat) (z : Z) :
  (0 < i)%nat → head (<[i := z]> r) = head r.
Proof. intros Hi. destruct r, i; simpl; done || lia. Qed.

Lemma insert_interior_last (r : list Z) (i : nat) (z : Z) :
  (i < length r - 1)%nat → last (<[i := z]> r) = last r.
Proof.
  intros Hi. rewrite !last_lookup, length_insert.
  apply list_lookup_insert_ne. lia.
Qed.

(** C5: on a solution whose routes all have an interior node,
    [generate_new_solution] returns whenever there are two routes to pick
    (and raises [ValueError] only when there are not). The list it returns
    is a new object; every object of the old store, the input solution
    among them, is left as it was; the new solution has as many routes, each
    of the same length, first node and last node as in the input; and it
    differs from the input at most at one interior position [i] of a route
    [v1] and one interior position [j] of another route [v2]. *)
Theorem generate_new_solution_keeps_depots (h : store) (routes : loc)
    (rs : list (list Z)) (g : rng) :
  read_routes h routes = Ok rs →
  Forall (λ r, (3 ≤ length r)%nat) rs →
  match generate_new_solution routes h g with
  | Ok (l, h', g') =>
      ∃ new v1 v2 i j r1 r2,
        read_routes h' l = Ok new ∧
        h ⊆ h' ∧ h !! l = None ∧ read_routes h' routes = Ok rs ∧
        length new = length rs ∧
        (∀ k r r', rs !! k = Some r → new !! k = Some r' →
           length r' = length r ∧ head r' = head r ∧ last r' = last r) ∧
        v1 ≠ v2 ∧ rs !! v1 = Some r1 ∧ rs !! v2 = Some r2 ∧
        (0 < i < length r1 - 1)%nat ∧ (0 < j < length r2 - 1)%nat ∧
        (∀ k p r r', rs !! k = Some r → new !! k = Some r' →
           (k, p) ≠ (v1, i) → (k, p) ≠ (v2, j) → r' !! p = r !! p)
  | Raise e => e = ValueError ∧ (length rs < 2)%nat
  end.
Proof.
  intros Hread%read_routes_repr Hlong.
  pose proof (generate_new_solution_move h routes rs g Hread) as Hgen.
  pose proof (move_shape rs g Hlong) as Hshape.
  destruct (move rs g) as [[new g']|e]; [|by rewrite Hgen].
  destruct Hgen as (l & h' & -> & Hsub & Hl & Hnew).
  destruct Hshape as (v1 & v2 & i & j & r1 & r2 & Hne & Hr1 & Hr2 & Hi & Hj & ->).
  assert (∀ k r r', rs !! k = Some r →
            <[v2 := <[j := r1 !!! i]> r2]> (<[v1 := <[i := r2 !!! j]> r1]> rs)
              !! k = Some r' →
            r' = if decide (k = v2) then <[j := r1 !!! i]> r
                 else if decide (k = v1) then <[i := r2 !!! j]> r else r)
    as Hcases.
  { intros k r r' Hr Hr'. apply lookup_lt_Some in Hr as Hk.
    destruct (decide (k = v2)) as [->|Hk2].
    - rewrite list_lookup_insert_eq in Hr' by (rewrite length_insert; lia).
      congruence.
    - rewrite list_lookup_insert_ne in Hr' by done.
      destruct (decide (k = v1)) as [->|Hk1].
      + rewrite list_lookup_insert_eq in Hr' by lia. congruence.
      + rewrite list_lookup_insert_ne in Hr' by done. congruence. }
  eexists _, v1, v2, i, j, r1, r2.
  split; [by apply read_routes_repr|].
  split; [done|]. split; [done|].
  split; [by eapply read_routes_repr, repr_routes_weaken|].
  split; [by rewrite !length_insert|].
  split; [|repeat split; try done; try lia].
  - intros k r r' Hr Hr'. rewrite (Hcases k r r' Hr Hr').
    destruct (decide (k = v2)) as [->|Hk2].
    { assert (r = r2) as -> by congruence.
      rewrite length_insert, insert_interior_head, insert_interior_last
        by lia. done. }
    destruct (decide (k = v1)) as [->|Hk1]; [|done].
    assert (r = r1) as -> by congruence.
    rewrite length_insert, insert_interior_head, insert_interior_last by lia.
    done.
  - intros k p r r' Hr Hr' Hp1 Hp2. rewrite (Hcases k r r' Hr Hr').
    destruct (decide (k = v2)) as [->|Hk2].
    { apply list_lookup_insert_ne. congruence. }
    destruct (decide (k = v1)) as [->|Hk1]; [|done].
    apply list_lookup_insert_ne. congruence.
Qed.

Lemma generate_new_solution_keeps_depots_witness :
  match generate_new_solution (fst (alloc_solution ∅ Notebook.feasible_routes))
          (snd (alloc_solution ∅ Notebook.feasible_routes))
          [5; 7; 0; 1]%N with
  | Ok (l, h', g') =>
      ∃ new v1 v2 i j r1 r2,
        read_routes h' l = Ok new ∧
        snd (alloc_solution ∅ Notebook.feasible_routes) ⊆ h' ∧
        snd (alloc_solution ∅ Notebook.feasible_routes) !! l = None ∧
        read_routes h' (fst (alloc_solution ∅ Notebook.feasible_routes))
          = Ok Notebook.feasible_routes ∧
        length new = length Notebook.feasible_routes ∧
        (∀ k r r', Notebook.feasible_routes !! k = Some r →
           new !! k = Some r' →
           length r' = length r ∧ head r' = head r ∧ last r' = last r) ∧
        v1 ≠ v2 ∧ Notebook.feasible_routes !! v1 = Some r1 ∧
        Notebook.feasible_routes !! v2 = Some r2 ∧
        (0 < i < length r1 - 1)%nat ∧ (0 < j < length r2 - 1)%nat ∧
        (∀ k p r r', Notebook.feasible_routes !! k = Some r →
           new !! k = Some r' →
           (k, p) ≠ (v1, i) → (k, p) ≠ (v2, j) → r' !! p = r !! p)
  | Raise e => e = ValueError ∧ (length Notebook.feasible_routes < 2)%nat
  end.
Proof.
  apply generate_new_solution_keeps_depots.
  - vm_compute. reflexivity.
  - repeat constructor.
Defined.

(** The swap on the notebook's [feasible_routes] with the draws 5, 7, 0, 1:
    customers 2 and 3 change routes, and the input is intact. *)
Example generate_new_solution_run :
  let '(routes, h) := alloc_solution ∅ Notebook.feasible_routes in
  ∃ l h',
    generate_new_solution routes h [5; 7; 0; 1]%N = Ok (l, h', []) ∧
    read_routes h' l = Ok [[0; 2; 4]; [0; 3; 1; 4]] ∧
    read_routes h' routes = Ok [[0; 3; 4]; [0; 2; 1; 4]].
Proof. eexists _, _. repeat split; vm_compute; reflexivity. Qed.

(** With only its two depot nodes, a route is a non-empty list, so the test
    [if new_routes[vehicle1] and new_routes[vehicle2]] lets it through, and
    [random.randint(1, 0)] has an empty range. *)
Lemma move_depot_only (g : rng) :
  move [[0; 4]; [0; 1; 2; 3; 4]] g = Raise ValueError.
Proof.
  unfold move.
  destruct (sample2 _ g) as [[[v1 v2] g1]|e] eqn:Hsample; cbn [bind].
  - apply sample2_range in Hsample as (Hv1 & Hv2 & Hne). simpl in Hv1, Hv2.
    destruct v1 as [|[|v1]], v2 as [|[|v2]]; try lia; try done.
    cbn -[randint].
    destruct (randint 1 _ g1) as [[i g2]|e] eqn:Hi; cbn [bind].
    + rewrite randint_empty by lia. done.
    + unfold randint in Hi. simpl in Hi. by destruct (randbelow _ g1).
  - unfold sample2 in Hsample. simpl in Hsample.
    destruct (randbelow 2 g) as [x1 g1]. by destruct (randbelow 1 g1).
Qed.

(** C4: the code raises on a depot-only route. For the solution
    [[0,4],[0,1,2,3,4]], whatever the generator draws,
    [generate_new_solution] raises [ValueError] instead of returning an
    unchanged copy. *)
Theorem depot_only_route_raises (g : rng) :
  generate_new_solution (fst (alloc_solution ∅ [[0; 4]; [0; 1; 2; 3; 4]]))
    (snd (alloc_solution ∅ [[0; 4]; [0; 1; 2; 3; 4]])) g
    = Raise ValueError.
Proof.
  pose proof (generate_new_solution_move
                (snd (alloc_solution ∅ [[0; 4]; [0; 1; 2; 3; 4]]))
                (fst (alloc_solution ∅ [[0; 4]; [0; 1; 2; 3; 4]]))
                [[0; 4]; [0; 1; 2; 3; 4]] g) as Hgen.
  rewrite move_depot_only in Hgen. apply Hgen.
  apply read_routes_repr. vm_compute. reflexivity.
Qed.

(** An empty route is the one case the test catches: the move is then a
    copy of its input. *)
Example empty_route_is_copied :
  let '(routes, h) := alloc_solution ∅ [[]; [0; 1; 2; 3; 4]] in
  ∃ l h',
    generate_new_solution routes h [5; 7; 0; 1]%N = Ok (l, h', [0; 1]%N) ∧
    read_routes h' l = Ok [[]; [0; 1; 2; 3; 4]].
Proof. eexists _, _. repeat split; vm_compute; reflexivity. Qed.

(** ** Floats below zero *)

Lemma binary_round_aux_sign (m : Z) (e : Z) (l : location) :
  is_negative (binary_round_aux 53 1024 false m e l) = false.
Proof.
  unfold binary_round_aux.
  destruct (shr_fexp 53 1024 m e l) as [mrs' e'].
  destruct (shr_fexp 53 1024 _ e' loc_Exact) as [mrs'' e''].
  destruct (shr_m mrs''); [done| |done].
  by destruct (Z.leb _ _).
Qed.

Lemma binary_normalize_sign (z e : Z) :
  0 ≤ z → is_negative (binary_normalize 53 1024 z e false) = false.
Proof.
  intros Hz. destruct z as [|p|p]; [done| |lia].
  unfold binary_normalize, binary_round.
  destruct (shl_align _ _ _) as [mz ez]. apply binary_round_aux_sign.
Qed.

Lemma SFmul_sign (x y : spec_float) :
  is_negative x = false → is_negative y = false →
  is_negative (SFmul 53 1024 x y) = false.
Proof.
  destruct x as [[]|[]| |[] mx ex], y as [[]|[]| |[] my ey]; try done.
  intros _ _. apply binary_round_aux_sign.
Qed.

Lemma SFadd_zero_sign (y : spec_float) :
  is_negative y = false → is_negative (SFadd 53 1024 pos_zero y) = false.
Proof. by destruct y as [[]|[]| |[] my ey]. Qed.

Lemma SFltb_zero (u : spec_float) :
  is_negative u = false → SFltb u pos_zero = false.
Proof. by destruct u as [[]|[]| |[] m e]. Qed.

Lemma SFltb_nan (u : spec_float) : SFltb u S754_nan = false.
Proof. by destruct u as [[]|[]| |[] m e]. Qed.

(** [random.uniform(0, 1)] never raises and is never below zero. *)
Lemma uniform_unit (g : rng) :
  ∃ u g', uniform (Int 0) (Int 1) g = Ok (u, g') ∧ is_negative u = false.
Proof.
  unfold uniform, random. destruct (next g) as [d g'].
  set (r := binary_normalize 53 1024 (Z.of_N d `mod` 2 ^ 53) (-53) false).
  assert (is_negative r = false) as Hr.
  { apply binary_normalize_sign. apply Z.mod_pos_bound. lia. }
  change (py_sub (Int 1) (Int 0)) with (Ok (Int 1)). cbn [bind].
  change (py_mul (Int 1) (Float r)) with (Ok (Float (SFmul 53 1024 one r))).
  cbn [bind].
  change (py_add (Int 0) (Float (SFmul 53 1024 one r)))
    with (Ok (Float (SFadd 53 1024 pos_zero (SFmul 53 1024 one r)))).
  cbn [bind to_float]. eexists _, _. split; [done|].
  by apply SFadd_zero_sign, SFmul_sign.
Qed.

(** ** The annealing engine *)

Lemma cost_lt_irrefl (c : cost) : cost_lt c c = false.
Proof. destruct c as [z|]; simpl; [|done]. apply bool_decide_false. lia. Qed.

Lemma cost_lt_asym (c d : cost) : cost_lt c d = true → cost_lt d c = false.
Proof.
  destruct c as [x|], d as [y|]; simpl; try done.
  intros H%bool_decide_eq_true. apply bool_decide_eq_false. lia.
Qed.

Lemma cost_le_refl (c : cost) : cost_le c c = true.
Proof. unfold cost_le. by rewrite cost_lt_irrefl. Qed.

Lemma cost_le_trans (c d e : cost) :
  cost_le c d = true → cost_le d e = true → cost_le c e = true.
Proof.
  unfold cost_le. rewrite !negb_true_iff.
  destruct c as [x|], d as [y|], e as [z|]; simpl; try done.
  rewrite !bool_decide_eq_false. lia.
Qed.

Section AnnealingFacts.
Variable libm_exp : spec_float → spec_float.
Variable global_feasible_routes : loc.
Variable global_num_vehicles : Z.
Variables (cij tij : gmap (Z * Z) Z) (a b : gmap Z Z) (q : Z) (di : gmap Z Z).
Variable num_vehicles : Z.

Let body := sa_body libm_exp global_num_vehicles cij tij a b q di num_vehicles.
Let loop := sa_loop libm_exp global_num_vehicles cij tij a b q di num_vehicles.
Let iterate :=
  sa_iterate libm_exp global_num_vehicles cij tij a b q di num_vehicles.
Let cost_at := cost_of global_num_vehicles cij tij a b q di num_vehicles.

(** What one completed iteration has done. *)
Lemma sa_body_inv (st st' : sa_state) :
  body st = Ok st' →
  ∃ new h g cost accepted g' t,
    generate_new_solution (current_routes st) (heap st) (gen st)
      = Ok (new, h, g) ∧
    cost_at h new = Ok cost ∧
    accepts libm_exp cost (best_cost st) (temperature st) g
      = Ok (accepted, g') ∧
    py_mul (temperature st) (Float cooling_rate) = Ok t ∧
    st' = SaState
            (if accepted then new else current_routes st)
            (if accepted && cost_lt cost (best_cost st)
             then new else best_routes st)
            (if accepted && cost_lt cost (best_cost st)
             then cost else best_cost st)
            t h g'.
Proof.
  unfold body, sa_body. intros H.
  bind_inv H. destruct v as [[new h] g].
  bind_inv H. bind_inv H. destruct v0 as [accepted g'].
  bind_inv H. injection H as <-.
  by exists new, h, g, v, accepted, g', v0.
Qed.

Lemma sa_body_best_cost (st st' : sa_state) :
  body st = Ok st' → cost_le (best_cost st') (best_cost st) = true.
Proof.
  intros (new & h & g & cost & accepted & g' & t & _ & _ & _ & _ & ->)%sa_body_inv.
  simpl. destruct accepted; simpl; [|apply cost_le_refl].
  destruct (cost_lt cost (best_cost st)) eqn:Hlt; [|apply cost_le_refl].
  unfold cost_le. by rewrite (cost_lt_asym _ _ Hlt).
Qed.

Lemma sa_body_temperature (st st' : sa_state) :
  body st = Ok st' →
  py_mul (temperature st) (Float cooling_rate) = Ok (temperature st').
Proof.
  by intros (new & h & g & cost & accepted & g' & t & _ & _ & _ & ? & ->)%sa_body_inv.
Qed.

(** After an iteration the temperature is a float. *)
Lemma sa_body_temperature_float (st st' : sa_state) :
  body st = Ok st' → ∃ f, temperature st' = Float f.
Proof.
  intros Hbody. pose proof (sa_body_temperature st st' Hbody) as H.
  unfold py_mul, arith in H.
  destruct (temperature st); bind_inv H; bind_inv H; injection H as <-; eauto.
Qed.

Lemma sa_iterate_temperature (n : nat) (st st' : sa_state) :
  temperature st = Int 1000 ∨ (∃ f, temperature st = Float f) →
  iterate n st = Ok st' →
  temperature st' = Int 1000 ∨ (∃ f, temperature st' = Float f).
Proof.
  revert st. induction n as [|n IH]; intros st Ht; simpl.
  - by intros [= <-].
  - destruct (gt_one (temperature st)); [|by intros [= <-]].
    intros H. bind_inv H. apply (IH v); [|done].
    right. exact (sa_body_temperature_float st v Hv).
Qed.

Lemma sa_iterate_done (n : nat) (st : sa_state) :
  gt_one (temperature st) = false → iterate n st = Ok st.
Proof. intros Hcold. destruct n; simpl; [done|]. by rewrite Hcold. Qed.

Lemma sa_iterate_add (m k : nat) (st : sa_state) :
  iterate (m + k) st = bind (iterate m st) (iterate k).
Proof.
  revert st. induction m as [|m IH]; intros st; [done|].
  simpl. destruct (gt_one (temperature st)) eqn:Hhot.
  - fold body. destruct (body st) as [st1|e]; simpl; [apply IH|done].
  - simpl. by rewrite sa_iterate_done.
Qed.

Lemma sa_iterate_best_cost (n : nat) (st st' : sa_state) :
  iterate n st = Ok st' → cost_le (best_cost st') (best_cost st) = true.
Proof.
  revert st. induction n as [|n IH]; intros st; simpl.
  - intros [= <-]. apply cost_le_refl.
  - destruct (gt_one (temperature st)).
    + intros H. bind_inv H. eapply cost_le_trans; [by eapply IH|].
      by apply sa_body_best_cost.
    + intros [= <-]. apply cost_le_refl.
Qed.

Lemma sa_loop_iterate (fuel : nat) (st st' : sa_state) :
  loop fuel st = Done st' → iterate fuel st = Ok st'.
Proof.
  revert st. induction fuel as [|fuel IH]; intros st; simpl.
  - destruct (gt_one (temperature st)); [done|]. by intros [= <-].
  - destruct (gt_one (temperature st)); [|by intros [= <-]].
    fold body. destruct (body st) as [st1|e]; simpl; [apply IH|done].
Qed.

Lemma sa_loop_halts (n extra : nat) (st : sa_state) :
  halts_within n (temperature st) = true →
  loop (n + extra) st ≠ OutOfFuel.
Proof.
  revert st. induction n as [|n IH]; intros st; simpl.
  - destruct (gt_one (temperature st)) eqn:Hhot; [done|]. intros _.
    unfold loop. destruct extra; simpl; by rewrite Hhot.
  - destruct (gt_one (temperature st)); [|done].
    fold body. destruct (body st) as [st1|e] eqn:Hbody; [|done].
    rewrite (sa_body_temperature _ _ Hbody). apply IH.
Qed.
End AnnealingFacts.

(** The objects of the store are left as they were by a move. *)
Lemma generate_new_solution_frame (h h' : store) (routes l : loc)
    (rs : list (list Z)) (g g' : rng) :
  read_routes h routes = Ok rs →
  generate_new_solution routes h g = Ok (l, h', g') →
  h ⊆ h' ∧ h !! l = None.
Proof.
  intros Hread%read_routes_repr Hgen.
  pose proof (generate_new_solution_move h routes rs g Hread) as Hmove.
  destruct (move rs g) as [[new g1]|e]; [|congruence].
  destruct Hmove as (l1 & h1 & Hgen1 & Hsub & Hl & _).
  rewrite Hgen in Hgen1. by injection Hgen1 as -> -> ->.
Qed.

(** The Metropolis test on the sentinel, against a finite best cost: the
    difference is minus infinity, the quotient is minus infinity (or NaN at
    an infinite temperature), the exponential is zero (or NaN), and no draw
    of [random.uniform(0, 1)] is below that. *)
Lemma accepts_sentinel (libm_exp : spec_float → spec_float) (bz : Z)
    (t : number) (g : rng) :
  gt_one t = true →
  t = Int 1000 ∨ (∃ f, t = Float f) →
  (∃ g', accepts libm_exp Inf (Fin bz) t g = Ok (false, g')) ∨
  (accepts libm_exp Inf (Fin bz) t g = Raise OverflowError ∧
   float_of_int bz = Raise OverflowError).
Proof.
  intros Hhot Ht. unfold accepts. cbn [cost_lt].
  destruct (uniform_unit g) as (u & g' & -> & Hu). cbn [bind cost_number].
  unfold py_sub, arith. cbn [to_float].
  destruct (float_of_int bz) as [f|e] eqn:Hf; cbn [bind].
  - left. exists g'.
    assert (SFsub 53 1024 f pos_inf = neg_inf) as ->.
    { unfold float_of_int in Hf.
      destruct (binary_normalize 53 1024 bz 0 false); by simplify_eq. }
    destruct Ht as [->|[f' ->]].
    + vm_compute py_truediv. cbn [bind math_exp].
      by rewrite SFltb_zero.
    + unfold py_truediv. cbn [to_float bind].
      destruct f' as [[]|[]| |[] m e]; try done; cbn [SFdiv xorb bind math_exp].
      * by rewrite SFltb_nan.
      * by rewrite SFltb_zero.
  - right. unfold float_of_int in Hf |- *.
    destruct (binary_normalize 53 1024 bz 0 false); by simplify_eq.
Qed.

(** One iteration on the sentinel, from any state whose temperature is the
    initial integer or a float. *)
Lemma sentinel_rejected_step (libm_exp : spec_float → spec_float)
    (global_num_vehicles : Z) (cij tij : gmap (Z * Z) Z) (a b : gmap Z Z)
    (q : Z) (di : gmap Z Z) (num_vehicles : Z) (st : sa_state)
    (new : loc) (h : store) (g : rng) (bz : Z) :
  gt_one (temperature st) = true →
  temperature st = Int 1000 ∨ (∃ f, temperature st = Float f) →
  best_cost st = Fin bz →
  generate_new_solution (current_routes st) (heap st) (gen st)
    = Ok (new, h, g) →
  cost_of global_num_vehicles cij tij a b q di num_vehicles h new = Ok Inf →
  match sa_body libm_exp global_num_vehicles cij tij a b q di num_vehicles st
  with
  | Ok st' =>
      current_routes st' = current_routes st ∧
      best_routes st' = best_routes st ∧
      best_cost st' = best_cost st ∧
      ∀ rs, read_routes (heap st) (current_routes st) = Ok rs →
            read_routes (heap st') (current_routes st') = Ok rs
  | Raise e => e = OverflowError ∧ float_of_int bz = Raise OverflowError
  end.
Proof.
  intros Hhot Ht Hbest Hgen Hcost. unfold sa_body.
  rewrite Hgen. cbn [bind]. rewrite Hcost. cbn [bind]. rewrite Hbest.
  destruct (accepts_sentinel libm_exp bz (temperature st) g Hhot Ht)
    as [[g' ->]|[-> Hbig]]; cbn [bind]; [|done].
  assert (∃ t, py_mul (temperature st) (Float cooling_rate) = Ok t)
    as [t ->].
  { destruct Ht as [->|[f ->]]; [|by eexists].
    eexists. vm_compute. reflexivity. }
  cbn [bind andb current_routes best_routes best_cost heap].
  repeat split; try done.
  intros rs Hrs. apply read_routes_repr.
  destruct (generate_new_solution_frame _ _ _ _ _ _ _ Hrs Hgen) as [Hsub _].
  by eapply repr_routes_weaken, read_routes_repr.
Qed.

(** C8: in a run of the engine, take the state [st] reached after any
    number [n] of iterations, with the loop test still true and a finite
    best cost. If the candidate of the next iteration evaluates to the
    sentinel, it is not accepted: when the iteration completes, the current
    solution, the best solution and the best cost are those of [st], and
    the current solution's list holds what it held. The iteration fails to
    complete only when the best cost is an integer too large to convert to a
    float. *)
Theorem infeasible_candidate_rejected (libm_exp : spec_float → spec_float)
    (global_feasible_routes : loc) (global_num_vehicles : Z)
    (cij tij : gmap (Z * Z) Z) (a b : gmap Z Z) (q : Z) (di : gmap Z Z)
    (initial_routes : loc) (num_vehicles : Z) (h0 : store) (g0 : rng)
    (st0 : sa_state) (n : nat) (st : sa_state)
    (new : loc) (h : store) (g : rng) (bz : Z) :
  sa_init global_feasible_routes global_num_vehicles cij tij a b q di
    initial_routes num_vehicles h0 g0 = Ok st0 →
  sa_iterate libm_exp global_num_vehicles cij tij a b q di num_vehicles n st0
    = Ok st →
  gt_one (temperature st) = true →
  best_cost st = Fin bz →
  generate_new_solution (current_routes st) (heap st) (gen st)
    = Ok (new, h, g) →
  cost_of global_num_vehicles cij tij a b q di num_vehicles h new = Ok Inf →
  match sa_body libm_exp global_num_vehicles cij tij a b q di num_vehicles st
  with
  | Ok st' =>
      current_routes st' = current_routes st ∧
      best_routes st' = best_routes st ∧
      best_cost st' = best_cost st ∧
      ∀ rs, read_routes (heap st) (current_routes st) = Ok rs →
            read_routes (heap st') (current_routes st') = Ok rs
  | Raise e => e = OverflowError ∧ float_of_int bz = Raise OverflowError
  end.
Proof.
  intros Hinit Hiter Hhot Hbest Hgen Hcost.
  eapply sentinel_rejected_step; try done.
  eapply sa_iterate_temperature; [|exact Hiter].
  left. unfold sa_init in Hinit. bind_inv Hinit. by injection Hinit as <-.
Qed.

(** The first iteration on the notebook's instance with every draw equal
    to zero: the candidate [[0,2,4],[0,3,1,4]] overloads the second
    vehicle. *)
Lemma infeasible_candidate_rejected_witness :
  let '(routes, h0) := alloc_solution ∅ Notebook.feasible_routes in
  let st := SaState routes routes (Fin 149) (Int 1000) h0 [] in
  match sa_body (λ _, one) Notebook.num_vehicles Notebook.cij Notebook.tij
          Notebook.a Notebook.b Notebook.q Notebook.di Notebook.num_vehicles st
  with
  | Ok st' =>
      current_routes st' = current_routes st ∧
      best_routes st' = best_routes st ∧
      best_cost st' = best_cost st ∧
      ∀ rs, read_routes (heap st) (current_routes st) = Ok rs →
            read_routes (heap st') (current_routes st') = Ok rs
  | Raise e => e = OverflowError ∧ float_of_int 149 = Raise OverflowError
  end.
Proof.
  eapply (infeasible_candidate_rejected (λ _, one)
            (fst (alloc_solution ∅ Notebook.feasible_routes))
            Notebook.num_vehicles Notebook.cij Notebook.tij Notebook.a
            Notebook.b Notebook.q Notebook.di
            (fst (alloc_solution ∅ Notebook.feasible_routes))
            Notebook.num_vehicles
            (snd (alloc_solution ∅ Notebook.feasible_routes)) [] _ 0).
  - vm_compute. reflexivity.
  - reflexivity.
  - reflexivity.
  - reflexivity.
  - vm_compute. reflexivity.
  - vm_compute. reflexivity.
Defined.

(** ** The terminal condition *)

(** IEEE 754 comparison read from the other side. *)
Lemma SFcompare_antisym (f1 f2 : spec_float) :
  SFcompare f2 f1 = option_map CompOpp (SFcompare f1 f2).
Proof.
  destruct f1 as [s1|s1| |s1 m1 e1], f2 as [s2|s2| |s2 m2 e2];
    cbn [SFcompare option_map]; try done;
    try (by destruct s1); try (by destruct s2); try (by destruct s1, s2).
  destruct s1, s2; try done.
  - rewrite (Z.compare_antisym e1 e2).
    destruct (e1 ?= e2); cbn [CompOpp]; try done.
    pose proof (Pos.compare_cont_antisym m1 m2 Eq) as H.
    cbn [CompOpp] in H. by rewrite <- H.
  - rewrite (Z.compare_antisym e1 e2).
    destruct (e1 ?= e2); cbn [CompOpp]; try done.
    pose proof (Pos.compare_cont_antisym m1 m2 Eq) as H.
    cbn [CompOpp] in H. by rewrite <- H.
Qed.

Lemma at_most_one_gt_one (t : number) :
  at_most_one t = true → gt_one t = false.
Proof.
  destruct t as [z|f]; cbn [at_most_one gt_one].
  - intros Hz%bool_decide_eq_true. apply bool_decide_eq_false. lia.
  - unfold SFleb, SFltb. rewrite (SFcompare_antisym f one).
    by destruct (SFcompare f one) as [[]|].
Qed.

Lemma gt_one_at_most_one (t : number) :
  at_most_one t = false → t ≠ Float S754_nan → gt_one t = true.
Proof.
  destruct t as [z|f]; cbn [at_most_one gt_one].
  - intros Hz%bool_decide_eq_false _. apply bool_decide_eq_true. lia.
  - unfold SFleb, SFltb. rewrite (SFcompare_antisym f one).
    intros Hle Hnan.
    destruct (SFcompare f one) as [[]|] eqn:Hcmp; try done.
    destruct f; try done.
Qed.

(** ** The cooling schedule *)

Lemma cooled_float (k : nat) (f : spec_float) :
  ∃ f', cooled k (Float f) = Ok (Float f').
Proof.
  revert f. induction k as [|k IH]; intros f; [by exists f|].
  cbn [cooled]. unfold py_mul, arith, to_float. cbn [bind]. apply IH.
Qed.

Lemma cooled_add (j k : nat) (t : number) :
  cooled (j + k) t = bind (cooled j t) (cooled k).
Proof.
  revert t. induction j as [|j IH]; intros t; [done|].
  cbn [Nat.add cooled]. destruct (py_mul t _); cbn [bind]; [apply IH|done].
Qed.

(** [stays_hot n t]: the first [n + 1] temperatures pass the loop test. *)
Lemma stays_hot_cooled (n : nat) (t : number) :
  stays_hot n t = true →
  ∀ j t', (j ≤ n)%nat → cooled j t = Ok t' → gt_one t' = true.
Proof.
  revert t. induction n as [|n IH]; intros t; cbn [stays_hot];
    intros [Hhot Hrest]%andb_prop j t' Hj.
  - assert (j = 0%nat) as -> by lia. by intros [= <-].
  - destruct j as [|j]; [by intros [= <-]|]. cbn [cooled].
    destruct (py_mul t _) as [t1|e]; cbn [bind]; [|done].
    apply IH; [done|lia].
Qed.

Section Cooling.
Variable libm_exp : spec_float → spec_float.
Variable global_num_vehicles : Z.
Variables (cij tij : gmap (Z * Z) Z) (a b : gmap Z Z) (q : Z) (di : gmap Z Z).
Variable num_vehicles : Z.

Let body := sa_body libm_exp global_num_vehicles cij tij a b q di num_vehicles.
Let loop := sa_loop libm_exp global_num_vehicles cij tij a b q di num_vehicles.

(** A loop that ends has cooled the temperature some number of times, the
    first time below the test at its end. *)
Lemma sa_loop_cooled (fuel : nat) (st st' : sa_state) :
  loop fuel st = Done st' →
  ∃ k, cooled k (temperature st) = Ok (temperature st') ∧
       gt_one (temperature st') = false ∧
       ∀ j t, (j < k)%nat → cooled j (temperature st) = Ok t →
              gt_one t = true.
Proof.
  revert st. induction fuel as [|fuel IH]; intros st; cbn [loop sa_loop].
  - destruct (gt_one (temperature st)) eqn:Hhot; [done|].
    intros [= <-]. exists 0%nat. split; [done|]. split; [done|]. lia.
  - destruct (gt_one (temperature st)) eqn:Hhot.
    + destruct (sa_body _ _ _ _ _ _ _ _ _ st) as [st1|e] eqn:Hbody; [|done].
      intros (k & Hk & Hcold & Hbefore)%IH.
      apply sa_body_temperature in Hbody.
      exists (S k). cbn [cooled]. rewrite Hbody. cbn [bind].
      split; [done|]. split; [done|].
      intros [|j] t Hj; [by intros [= <-]|]. cbn [cooled].
      rewrite Hbody. cbn [bind]. apply Hbefore. lia.
    + intros [= <-]. exists 0%nat. split; [done|]. split; [done|]. lia.
Qed.
End Cooling.

(** From [1000] every temperature of the schedule exists. *)
Lemma cooled_from_1000 (k : nat) : ∃ t, cooled k (Int 1000) = Ok t.
Proof.
  destruct k as [|k]; [by eexists|]. cbn [cooled].
  destruct (py_mul (Int 1000) (Float cooling_rate)) as [[z|f]|e] eqn:Hmul;
    try (vm_compute in Hmul; discriminate).
  cbn [bind]. destruct (cooled_float k f) as [f' ->]. by eexists.
Qed.

(** From [1000] the temperature is above [1] after each of the first 687
    coolings and at most [1] after the 688th. *)
Lemma cooling_schedule_hot (k : nat) (t : number) :
  (k < 688)%nat → cooled k (Int 1000) = Ok t → gt_one t = true.
Proof.
  intros Hk. apply (stays_hot_cooled 687); [|lia].
  vm_compute. reflexivity.
Qed.

Lemma cooling_schedule_cold :
  ∃ t, cooled 688 (Int 1000) = Ok t ∧ at_most_one t = true ∧
       gt_one t = false.
Proof.
  eexists. split; [vm_compute; reflexivity|].
  split; vm_compute; reflexivity.
Qed.

Section CoolingRun.
Variable libm_exp : spec_float → spec_float.
Variable global_feasible_routes : loc.
Variable global_num_vehicles : Z.
Variables (cij tij : gmap (Z * Z) Z) (a b : gmap Z Z) (q : Z) (di : gmap Z Z).
Variable initial_routes : loc.
Variable num_vehicles : Z.

Let loop := sa_loop libm_exp global_num_vehicles cij tij a b q di num_vehicles.

(** The loop test read as the terminal condition. *)
Lemma sa_loop_exit (fuel : nat) (st : sa_state) :
  at_most_one (temperature st) = true → loop fuel st = Done st.
Proof.
  intros Hle%at_most_one_gt_one.
  destruct fuel; cbn [loop sa_loop]; by rewrite Hle.
Qed.

Lemma sa_loop_continue (fuel : nat) (st : sa_state) :
  at_most_one (temperature st) = false →
  temperature st ≠ Float S754_nan →
  loop (S fuel) st
  = match sa_body libm_exp global_num_vehicles cij tij a b q di num_vehicles
            st with
    | Ok st' => loop fuel st'
    | Raise e => Failed e
    end.
Proof.
  intros Hgt Hnan. cbn [loop sa_loop].
  by rewrite (gt_one_at_most_one _ Hgt Hnan).
Qed.

(** A loop that ends after a start at [1000] has cooled 688 times. *)
Lemma sa_loop_688 (fuel : nat) (st0 st : sa_state) :
  temperature st0 = Int 1000 →
  loop fuel st0 = Done st →
  cooled 688 (Int 1000) = Ok (temperature st).
Proof.
  intros Ht0 (k & Hk & Hend & Hbefore)%sa_loop_cooled.
  rewrite Ht0 in Hk, Hbefore.
  destruct (lt_eq_lt_dec k 688) as [[Hlt| ->]|Hgt].
  - rewrite (cooling_schedule_hot k _ Hlt Hk) in Hend. discriminate.
  - exact Hk.
  - destruct cooling_schedule_cold as (t & H688 & _ & Hcold).
    rewrite (Hbefore 688%nat t Hgt H688) in Hcold. discriminate.
Qed.

Lemma sa_init_temperature (h : store) (g : rng) (st0 : sa_state) :
  sa_init global_feasible_routes global_num_vehicles cij tij a b q di
    initial_routes num_vehicles h g = Ok st0 →
  temperature st0 = Int 1000.
Proof. unfold sa_init. intros H. bind_inv H. by injection H as <-. Qed.

Lemma simulated_annealing_halts (extra : nat) (h : store) (g : rng) :
  simulated_annealing libm_exp global_feasible_routes global_num_vehicles
    cij tij a b q di initial_routes num_vehicles (688 + extra) h g
  ≠ OutOfFuel.
Proof.
  unfold simulated_annealing.
  destruct (sa_init _ _ _ _ _ _ _ _ _ _ h g) as [st|e] eqn:Hinit; [|done].
  apply sa_init_temperature in Hinit as Ht.
  pose proof (sa_loop_halts libm_exp global_num_vehicles cij tij a b q di
                num_vehicles 688 extra st) as Hhalt.
  rewrite Ht in Hhalt. specialize (Hhalt ltac:(vm_compute; reflexivity)).
  by destruct (sa_loop _ _ _ _ _ _ _ _ _ _ st).
Qed.

Lemma simulated_annealing_cooled (fuel : nat) (h : store) (g : rng)
    (out : loc * cost * store * rng) :
  simulated_annealing libm_exp global_feasible_routes global_num_vehicles
    cij tij a b q di initial_routes num_vehicles fuel h g = Done out →
  ∃ st0 st,
    sa_init global_feasible_routes global_num_vehicles cij tij a b q di
      initial_routes num_vehicles h g = Ok st0 ∧
    temperature st0 = Int 1000 ∧
    loop fuel st0 = Done st ∧
    cooled 688 (Int 1000) = Ok (temperature st) ∧
    out = (best_routes st, best_cost st, heap st, gen st).
Proof.
  unfold simulated_annealing.
  destruct (sa_init _ _ _ _ _ _ _ _ _ _ h g) as [st0|e] eqn:Hinit; [|done].
  apply sa_init_temperature in Hinit as Ht0.
  destruct (sa_loop _ _ _ _ _ _ _ _ _ fuel st0) as [st| |] eqn:Hloop;
    try done.
  intros [= <-]. exists st0, st. split; [reflexivity|].
  split; [exact Ht0|]. split; [exact Hloop|]. split; [|reflexivity].
  by eapply sa_loop_688.
Qed.
End CoolingRun.

(** C7: the loop terminates, and its exit is the test [temperature <= 1]
    against the absolute constant [1]. The cooling rate is strictly between
    0 and 1. At any temperature, the loop leaves at once, without running
    its body, when the temperature is at most 1, and otherwise runs the body
    once more; the body multiplies the temperature by the cooling rate.
    From the start temperature 1000 the temperature is above 1 after each of
    the first 687 coolings and at most 1 after the 688th. So a run never
    ends for want of fuel when it has fuel for 688 iterations or more, and a
    run that returns has left the loop at the temperature reached by
    exactly 688 coolings of 1000. *)
Theorem annealing_terminates (libm_exp : spec_float → spec_float)
    (global_feasible_routes : loc) (global_num_vehicles : Z)
    (cij tij : gmap (Z * Z) Z) (a b : gmap Z Z) (q : Z) (di : gmap Z Z)
    (initial_routes : loc) (num_vehicles : Z) (extra : nat)
    (h : store) (g : rng) :
  let body :=
    sa_body libm_exp global_num_vehicles cij tij a b q di num_vehicles in
  let loop :=
    sa_loop libm_exp global_num_vehicles cij tij a b q di num_vehicles in
  let run :=
    simulated_annealing libm_exp global_feasible_routes global_num_vehicles
      cij tij a b q di initial_routes num_vehicles (688 + extra) h g in
  SFltb (S754_zero false) cooling_rate = true ∧
  SFltb cooling_rate one = true ∧
  (∀ fuel st, at_most_one (temperature st) = true → loop fuel st = Done st) ∧
  (∀ fuel st,
     at_most_one (temperature st) = false →
     temperature st ≠ Float S754_nan →
     loop (S fuel) st = match body st with
                        | Ok st' => loop fuel st'
                        | Raise e => Failed e
                        end) ∧
  (∀ st st', body st = Ok st' →
             py_mul (temperature st) (Float cooling_rate)
             = Ok (temperature st')) ∧
  (∀ k, (k < 688)%nat →
        ∃ t, cooled k (Int 1000) = Ok t ∧ at_most_one t = false) ∧
  (∃ t, cooled 688 (Int 1000) = Ok t ∧ at_most_one t = true) ∧
  run ≠ OutOfFuel ∧
  ∀ out, run = Done out →
    ∃ st0 st,
      sa_init global_feasible_routes global_num_vehicles cij tij a b q di
        initial_routes num_vehicles h g = Ok st0 ∧
      temperature st0 = Int 1000 ∧
      loop (688 + extra)%nat st0 = Done st ∧
      cooled 688 (Int 1000) = Ok (temperature st) ∧
      out = (best_routes st, best_cost st, heap st, gen st).
Proof.
  intros body loop run.
  split; [vm_compute; reflexivity|]. split; [vm_compute; reflexivity|].
  split; [apply sa_loop_exit|]. split; [apply sa_loop_continue|].
  split; [apply sa_body_temperature|].
  split.
  { intros k Hk. destruct (cooled_from_1000 k) as [t Ht]. exists t.
    split; [exact Ht|]. destruct (at_most_one t) eqn:Hle; [|reflexivity].
    apply at_most_one_gt_one in Hle.
    rewrite (cooling_schedule_hot k t Hk Ht) in Hle. discriminate. }
  split.
  { destruct cooling_schedule_cold as (t & H688 & Hcold & _). by exists t. }
  split; [apply simulated_annealing_halts|].
  apply simulated_annealing_cooled.
Qed.

(** The count is exact: 687 iterations leave the temperature above 1. *)
Example cooling_takes_688 :
  halts_within 687 (Int 1000) = false ∧ halts_within 688 (Int 1000) = true.
Proof. split; vm_compute; reflexivity. Qed.

(** C6: the best cost never increases. In a run that returns
    [(best_routes, best_cost)], the returned cost is at most the cost of the
    solution the search started from, and along the sequence of states of
    the loop the best cost after [n] iterations is at most the best cost
    after [m] iterations, for all [m <= n]. *)
Theorem best_cost_non_increasing (libm_exp : spec_float → spec_float)
    (global_feasible_routes : loc) (global_num_vehicles : Z)
    (cij tij : gmap (Z * Z) Z) (a b : gmap Z Z) (q : Z) (di : gmap Z Z)
    (initial_routes : loc) (num_vehicles : Z) (fuel : nat)
    (h : store) (g : rng) (best : loc) (bc : cost) (h' : store) (g' : rng) :
  simulated_annealing libm_exp global_feasible_routes global_num_vehicles
    cij tij a b q di initial_routes num_vehicles fuel h g
    = Done (best, bc, h', g') →
  ∃ st0,
    sa_init global_feasible_routes global_num_vehicles cij tij a b q di
      initial_routes num_vehicles h g = Ok st0 ∧
    cost_of global_num_vehicles cij tij a b q di num_vehicles h
      (current_routes st0) = Ok (best_cost st0) ∧
    cost_le bc (best_cost st0) = true ∧
    ∀ m n stm stn,
      (m ≤ n)%nat →
      sa_iterate libm_exp global_num_vehicles cij tij a b q di num_vehicles
        m st0 = Ok stm →
      sa_iterate libm_exp global_num_vehicles cij tij a b q di num_vehicles
        n st0 = Ok stn →
      cost_le (best_cost stn) (best_cost stm) = true.
Proof.
  unfold simulated_annealing.
  destruct (sa_init _ _ _ _ _ _ _ _ _ _ h g) as [st0|e] eqn:Hinit; [|done].
  destruct (sa_loop _ _ _ _ _ _ _ _ _ _ st0) as [st| |] eqn:Hloop; try done.
  intros [= <- <- <- <-]. exists st0. split; [done|].
  split; [|split].
  - unfold sa_init in Hinit. bind_inv Hinit. by injection Hinit as <-.
  - eapply sa_iterate_best_cost, sa_loop_iterate, Hloop.
  - intros m n stm stn Hmn Hm Hn.
    replace n with (m + (n - m))%nat in Hn by lia.
    rewrite sa_iterate_add, Hm in Hn. cbn [bind] in Hn.
    by eapply sa_iterate_best_cost.
Qed.

Lemma best_cost_non_increasing_witness :
  let '(routes, h) := alloc_solution ∅ Notebook.feasible_routes in
  ∃ st0,
    sa_init routes Notebook.num_vehicles Notebook.cij Notebook.tij Notebook.a
      Notebook.b Notebook.q Notebook.di routes Notebook.num_vehicles h
      [1; 0; 1; 1]%N = Ok st0 ∧
    cost_of Notebook.num_vehicles Notebook.cij Notebook.tij Notebook.a
      Notebook.b Notebook.q Notebook.di Notebook.num_vehicles h
      (current_routes st0) = Ok (best_cost st0) ∧
    cost_le (Fin 128) (best_cost st0) = true ∧
    ∀ m n stm stn,
      (m ≤ n)%nat →
      sa_iterate (λ _, one) Notebook.num_vehicles Notebook.cij Notebook.tij
        Notebook.a Notebook.b Notebook.q Notebook.di Notebook.num_vehicles
        m st0 = Ok stm →
      sa_iterate (λ _, one) Notebook.num_vehicles Notebook.cij Notebook.tij
        Notebook.a Notebook.b Notebook.q Notebook.di Notebook.num_vehicles
        n st0 = Ok stn →
      cost_le (best_cost stn) (best_cost stm) = true.
Proof.
  eapply (best_cost_non_increasing (λ _, one) _ _ _ _ _ _ _ _ _ _ 688).
  vm_compute. reflexivity.
Defined.

(** C2: the engine does not start from its argument. On the notebook's
    instance, with [feasible_routes] as the global and [exact_routes] passed
    as [initial_routes], the current and the best solution are initialised
    to the global list, and the best cost to its cost 149, not to the cost
    128 of the seed. *)
Theorem seed_argument_ignored :
  let '(feasible, h) := alloc_solution ∅ Notebook.feasible_routes in
  let '(seed, h) := alloc_solution h Notebook.exact_routes in
  ∃ st,
    sa_init feasible Notebook.num_vehicles Notebook.cij Notebook.tij
      Notebook.a Notebook.b Notebook.q Notebook.di seed Notebook.num_vehicles
      h [] = Ok st ∧
    current_routes st = feasible ∧ best_routes st = feasible ∧
    feasible ≠ seed ∧
    best_cost st = Fin 149 ∧
    cost_of Notebook.num_vehicles Notebook.cij Notebook.tij Notebook.a
      Notebook.b Notebook.q Notebook.di Notebook.num_vehicles h seed
      = Ok (Fin 128).
Proof.
  eexists. repeat split; try (vm_compute; reflexivity). vm_compute. congruence.
Qed.

(** Whatever is passed as [initial_routes], the statements before the loop
    compute the same state. *)
Lemma sa_init_ignores_seed (global_feasible_routes : loc)
    (global_num_vehicles : Z) (cij tij : gmap (Z * Z) Z) (a b : gmap Z Z)
    (q : Z) (di : gmap Z Z) (seed seed' : loc) (num_vehicles : Z)
    (h : store) (g : rng) :
  sa_init global_feasible_routes global_num_vehicles cij tij a b q di seed
    num_vehicles h g
  = sa_init global_feasible_routes global_num_vehicles cij tij a b q di seed'
      num_vehicles h g.
Proof. reflexivity. Qed.

(** ** The instance generator *)

Lemma py_range_elem (lo hi x : Z) : x ∈ py_range lo hi ↔ lo ≤ x < hi.
Proof. unfold py_range. rewrite elem_of_seqZ. lia. Qed.

Lemma py_range_NoDup (lo hi : Z) : NoDup (py_range lo hi).
Proof. apply NoDup_seqZ. Qed.

Lemma arcs_of_elem (N : list Z) (i j : Z) :
  (i, j) ∈ arcs_of N ↔ i ∈ N ∧ j ∈ N ∧ i ≠ j.
Proof.
  unfold arcs_of. rewrite list_elem_of_bind. split.
  - intros (i' & Hj & Hi). apply list_elem_of_fmap in Hj as (j' & [= -> ->] & Hj).
    apply list_elem_of_filter in Hj. tauto.
  - intros (Hi & Hj & Hne). exists i. split; [|done].
    apply list_elem_of_fmap. exists j. split; [done|].
    by apply list_elem_of_filter.
Qed.

(** A comprehension of draws defines exactly its keys, each with a value of
    the range; it can only raise [ValueError]. *)
Lemma draw_dict_ok `{Countable T} (keys : list T) (lo hi : Z)
    (d d' : gmap T Z) (g g' : rng) :
  draw_dict keys lo hi d g = Ok (d', g') →
  dom d' = dom d ∪ list_to_set keys ∧
  ∀ k v, d' !! k = Some v → d !! k = Some v ∨ (k ∈ keys ∧ lo ≤ v ≤ hi).
Proof.
  revert d g. induction keys as [|k keys IH]; intros d g; simpl.
  - intros [= <- <-]. split; [by rewrite union_empty_r_L|auto].
  - intros Hd. bind_inv Hd. destruct v as [v g1].
    apply randint_range in Hv. apply IH in Hd as [Hdom Hval]. split.
    + rewrite Hdom, dom_insert_L. simpl.
      by rewrite (assoc_L (∪)), (comm_L (∪) (dom d)).
    + intros k' v' Hk'. destruct (Hval k' v' Hk') as [Hold|[Hin Hr]].
      * destruct (decide (k = k')) as [->|Hne].
        -- rewrite lookup_insert_eq in Hold. injection Hold as <-.
           right. split; [left|done].
        -- rewrite lookup_insert_ne in Hold by done. by left.
      * right. split; [by right|done].
Qed.

Lemma draw_dict_raise `{Countable T} (keys : list T) (lo hi : Z)
    (d : gmap T Z) (g : rng) (e : exn) :
  draw_dict keys lo hi d g = Raise e → e = ValueError.
Proof.
  revert d g. induction keys as [|k keys IH]; intros d g; simpl; [done|].
  destruct (randint lo hi g) as [[v g1]|e'] eqn:Hr; simpl; [by apply IH|].
  intros [= <-]. unfold randint in Hr. case_bool_decide; [|congruence].
  by destruct (randbelow _ g).
Qed.

Lemma draw_ends_ok (keys : list Z) (a : gmap Z Z) (hi : Z)
    (d d' : gmap Z Z) (g g' : rng) :
  draw_ends keys a hi d g = Ok (d', g') →
  dom d' = dom d ∪ list_to_set keys ∧
  ∀ k v, d' !! k = Some v →
         d !! k = Some v ∨
         (k ∈ keys ∧ ∃ ak, a !! k = Some ak ∧ ak + 1 ≤ v ≤ hi).
Proof.
  revert d g. induction keys as [|k keys IH]; intros d g; simpl.
  - intros [= <- <-]. split; [by rewrite union_empty_r_L|auto].
  - intros Hd. bind_inv Hd. bind_inv Hd. destruct v0 as [w g1].
    apply getitem_ok in Hv. apply randint_range in Hv0.
    apply IH in Hd as [Hdom Hval]. split.
    + rewrite Hdom, dom_insert_L. simpl.
      by rewrite (assoc_L (∪)), (comm_L (∪) (dom d)).
    + intros k' v' Hk'. destruct (Hval k' v' Hk') as [Hold|(Hin & Hr)].
      * destruct (decide (k = k')) as [->|Hne].
        -- rewrite lookup_insert_eq in Hold. injection Hold as <-.
           right. split; [left|eauto].
        -- rewrite lookup_insert_ne in Hold by done. by left.
      * right. split; [by right|done].
Qed.

Lemma draw_ends_raise (keys : list Z) (a : gmap Z Z) (hi : Z)
    (d : gmap Z Z) (g : rng) (e : exn) :
  list_to_set keys ⊆ dom a →
  draw_ends keys a hi d g = Raise e → e = ValueError.
Proof.
  revert d g. induction keys as [|k keys IH]; intros d g Hkeys; simpl; [done|].
  assert (is_Some (a !! k)) as [ak Hak] by (apply elem_of_dom; set_solver).
  unfold getitem. rewrite Hak. simpl.
  destruct (randint (ak + 1) hi g) as [[v g1]|e'] eqn:Hr; simpl.
  - apply IH. set_solver.
  - intros [= <-]. unfold randint in Hr. case_bool_decide; [|congruence].
    by destruct (randbelow _ g).
Qed.

(** What a successful call has drawn. *)
Lemma generate_vrptw_parameters_inv (num_vehicles num_customers : Z)
    (cost_range time_range demand_range : Z * Z) (capacity : Z)
    (time_window_range : Z * Z) (large_constant : Z) (seed : option Z)
    (reseed : Z → rng) (g g' : rng) (p : Parameters.t) :
  generate_vrptw_parameters num_vehicles num_customers cost_range time_range
    demand_range capacity time_window_range large_constant seed reseed g
    = Ok (p, g') →
  ∃ a0 b0 ga gb gc gd ge gf,
    let N := py_range 0 (num_customers + 2) in
    let C := py_range 1 (num_customers + 1) in
    draw_dict (arcs_of N) cost_range.1 cost_range.2 ∅ ga
      = Ok (Parameters.cij p, gb) ∧
    draw_dict (arcs_of N) time_range.1 time_range.2 ∅ gb
      = Ok (Parameters.tij p, gc) ∧
    draw_dict C demand_range.1 demand_range.2 ∅ gc = Ok (Parameters.di p, gd) ∧
    draw_dict N time_window_range.1 time_window_range.2 ∅ gd = Ok (a0, ge) ∧
    draw_ends N a0 time_window_range.2 ∅ ge = Ok (b0, gf) ∧
    Parameters.a p = <[num_customers + 1 := 0]> (<[0 := 0]> a0) ∧
    Parameters.b p = <[num_customers + 1 := time_window_range.2]>
                       (<[0 := time_window_range.2]> b0) ∧
    Parameters.V p = py_range 1 (num_vehicles + 1) ∧
    Parameters.N p = N ∧ Parameters.C p = C ∧
    Parameters.q p = capacity ∧ Parameters.K p = large_constant.
Proof.
  unfold generate_vrptw_parameters. intros H.
  bind_inv H. destruct v as [cij gb].
  bind_inv H. destruct v as [tij gc].
  bind_inv H. destruct v as [di gd].
  bind_inv H. destruct v as [a0 ge].
  bind_inv H. destruct v as [b0 gf].
  injection H as <- <-. simpl. by eexists a0, b0, _, gb, gc, gd, ge, gf.
Qed.

(** X1: the generator builds complete matrices: a call with [num_customers >=
    0] that returns has a cost and a travel time for exactly the ordered
    pairs of distinct nodes [0 .. n+1], a demand for exactly the customers
    [1 .. n], a window for exactly the nodes, and [len(b) - 1] is the
    return depot [n + 1]. *)
Theorem generated_instance_keys (num_vehicles num_customers : Z)
    (cost_range time_range demand_range : Z * Z) (capacity : Z)
    (time_window_range : Z * Z) (large_constant : Z) (seed : option Z)
    (reseed : Z → rng) (g g' : rng) (p : Parameters.t) :
  0 ≤ num_customers →
  generate_vrptw_parameters num_vehicles num_customers cost_range time_range
    demand_range capacity time_window_range large_constant seed reseed g
    = Ok (p, g') →
  (∀ i j, is_Some (Parameters.cij p !! (i, j)) ↔
          0 ≤ i ≤ num_customers + 1 ∧ 0 ≤ j ≤ num_customers + 1 ∧ i ≠ j) ∧
  (∀ i j, is_Some (Parameters.tij p !! (i, j)) ↔
          0 ≤ i ≤ num_customers + 1 ∧ 0 ≤ j ≤ num_customers + 1 ∧ i ≠ j) ∧
  (∀ i, is_Some (Parameters.di p !! i) ↔ 1 ≤ i ≤ num_customers) ∧
  (∀ i, is_Some (Parameters.a p !! i) ↔ 0 ≤ i ≤ num_customers + 1) ∧
  (∀ i, is_Some (Parameters.b p !! i) ↔ 0 ≤ i ≤ num_customers + 1) ∧
  len (Parameters.b p) - 1 = num_customers + 1.
Proof.
  intros Hn (a0 & b0 & ga & gb & gc & gd & ge & gf & Hc & Ht & Hd & Ha & Hb
             & Hpa & Hpb & _)%generate_vrptw_parameters_inv.
  apply draw_dict_ok in Hc as [Hc _]. apply draw_dict_ok in Ht as [Ht _].
  apply draw_dict_ok in Hd as [Hd _]. apply draw_dict_ok in Ha as [Ha _].
  apply draw_ends_ok in Hb as [Hb _].
  assert (∀ i, i ∈ dom (Parameters.a p) ↔ 0 ≤ i ≤ num_customers + 1) as Hda.
  { intros i. rewrite Hpa, !dom_insert_L, Ha, dom_empty_L.
    rewrite !elem_of_union, !elem_of_singleton, elem_of_list_to_set.
    rewrite py_range_elem, elem_of_empty. lia. }
  assert (dom (Parameters.b p) = list_to_set (py_range 0 (num_customers + 2)))
    as Hdb.
  { apply set_eq. intros i. rewrite Hpb, !dom_insert_L, Hb, dom_empty_L.
    rewrite !elem_of_union, !elem_of_singleton, elem_of_list_to_set.
    rewrite py_range_elem, elem_of_empty. lia. }
  split_and!.
  - intros i j. rewrite <- elem_of_dom, Hc, dom_empty_L, elem_of_union.
    rewrite elem_of_empty, elem_of_list_to_set, arcs_of_elem, !py_range_elem.
    lia.
  - intros i j. rewrite <- elem_of_dom, Ht, dom_empty_L, elem_of_union.
    rewrite elem_of_empty, elem_of_list_to_set, arcs_of_elem, !py_range_elem.
    lia.
  - intros i. rewrite <- elem_of_dom, Hd, dom_empty_L, elem_of_union.
    rewrite elem_of_empty, elem_of_list_to_set, py_range_elem. lia.
  - intros i. rewrite <- elem_of_dom. apply Hda.
  - intros i. rewrite <- elem_of_dom, Hdb, elem_of_list_to_set, py_range_elem.
    lia.
  - unfold len. rewrite <- size_dom, Hdb.
    rewrite size_list_to_set by apply py_range_NoDup.
    unfold py_range. rewrite length_seqZ. lia.
Qed.

Lemma generated_instance_keys_witness :
  ∃ p g',
    generate_vrptw_parameters 2 1 (10, 50) (5, 30) (5, 15) 20 (0, 100) 1000
      None (λ _, []) [] = Ok (p, g') ∧
    (∀ i j, is_Some (Parameters.cij p !! (i, j)) ↔
            0 ≤ i ≤ 1 + 1 ∧ 0 ≤ j ≤ 1 + 1 ∧ i ≠ j) ∧
    (∀ i j, is_Some (Parameters.tij p !! (i, j)) ↔
            0 ≤ i ≤ 1 + 1 ∧ 0 ≤ j ≤ 1 + 1 ∧ i ≠ j) ∧
    (∀ i, is_Some (Parameters.di p !! i) ↔ 1 ≤ i ≤ 1) ∧
    (∀ i, is_Some (Parameters.a p !! i) ↔ 0 ≤ i ≤ 1 + 1) ∧
    (∀ i, is_Some (Parameters.b p !! i) ↔ 0 ≤ i ≤ 1 + 1) ∧
    len (Parameters.b p) - 1 = 1 + 1.
Proof.
  eexists _, _. split; [vm_compute; reflexivity|].
  eapply (generated_instance_keys 2 1 (10, 50) (5, 30) (5, 15) 20 (0, 100) 1000
           None (λ _, []) []); [lia|vm_compute; reflexivity].
Defined.

(** X2: the generated values lie in the requested ranges, and the capacity and
    the large constant are the arguments. *)
Theorem generated_values_in_range (num_vehicles num_customers : Z)
    (cost_range time_range demand_range : Z * Z) (capacity : Z)
    (time_window_range : Z * Z) (large_constant : Z) (seed : option Z)
    (reseed : Z → rng) (g g' : rng) (p : Parameters.t) :
  generate_vrptw_parameters num_vehicles num_customers cost_range time_range
    demand_range capacity time_window_range large_constant seed reseed g
    = Ok (p, g') →
  map_Forall (λ _ c, cost_range.1 ≤ c ≤ cost_range.2) (Parameters.cij p) ∧
  map_Forall (λ _ t, time_range.1 ≤ t ≤ time_range.2) (Parameters.tij p) ∧
  map_Forall (λ _ d, demand_range.1 ≤ d ≤ demand_range.2) (Parameters.di p) ∧
  Parameters.q p = capacity ∧ Parameters.K p = large_constant.
Proof.
  intros (a0 & b0 & ga & gb & gc & gd & ge & gf & Hc & Ht & Hd & _ & _
          & _ & _ & _ & _ & _ & Hq & HK)%generate_vrptw_parameters_inv.
  apply draw_dict_ok in Hc as [_ Hc]. apply draw_dict_ok in Ht as [_ Ht].
  apply draw_dict_ok in Hd as [_ Hd].
  split_and!; try done.
  - intros k v Hk. by destruct (Hc k v Hk) as [?|[_ ?]].
  - intros k v Hk. by destruct (Ht k v Hk) as [?|[_ ?]].
  - intros k v Hk. by destruct (Hd k v Hk) as [?|[_ ?]].
Qed.

Lemma generated_values_in_range_witness :
  ∃ p g',
    generate_vrptw_parameters 2 1 (10, 50) (5, 30) (5, 15) 20 (0, 100) 1000
      None (λ _, []) [7; 200; 31]%N = Ok (p, g') ∧
    map_Forall (λ _ c, 10 ≤ c ≤ 50) (Parameters.cij p) ∧
    map_Forall (λ _ t, 5 ≤ t ≤ 30) (Parameters.tij p) ∧
    map_Forall (λ _ d, 5 ≤ d ≤ 15) (Parameters.di p) ∧
    Parameters.q p = 20 ∧ Parameters.K p = 1000.
Proof.
  eexists _, _. split; [vm_compute; reflexivity|].
  eapply (generated_values_in_range 2 1 (10, 50) (5, 30) (5, 15) 20 (0, 100)
           1000 None (λ _, []) [7; 200; 31]%N).
  vm_compute; reflexivity.
Defined.

(** X3: the time windows of a generated instance, for [num_customers >= 0] and
    a window range that starts at 0 or later: every node's window opens
    strictly before it closes, a customer's window lies within the range,
    and both depots have the window from 0 to the end of the range. *)
Theorem generated_windows (num_vehicles num_customers : Z)
    (cost_range time_range demand_range : Z * Z) (capacity : Z)
    (time_window_range : Z * Z) (large_constant : Z) (seed : option Z)
    (reseed : Z → rng) (g g' : rng) (p : Parameters.t) (i ai bi : Z) :
  0 ≤ num_customers →
  0 ≤ time_window_range.1 →
  generate_vrptw_parameters num_vehicles num_customers cost_range time_range
    demand_range capacity time_window_range large_constant seed reseed g
    = Ok (p, g') →
  Parameters.a p !! i = Some ai →
  Parameters.b p !! i = Some bi →
  ai < bi ∧
  (1 ≤ i ≤ num_customers →
   time_window_range.1 ≤ ai ∧ bi ≤ time_window_range.2) ∧
  (i = 0 ∨ i = num_customers + 1 → ai = 0 ∧ bi = time_window_range.2).
Proof.
  intros Hn Htw (a0 & b0 & ga & gb & gc & gd & ge & gf & _ & _ & _ & Ha & Hb
                 & Hpa & Hpb & _)%generate_vrptw_parameters_inv Hai Hbi.
  apply draw_dict_ok in Ha as [Hda Ha]. apply draw_ends_ok in Hb as [Hdb Hb].
  assert (time_window_range.1 < time_window_range.2) as Hwide.
  { assert (is_Some (b0 !! 0)) as [w Hw].
    { apply elem_of_dom. rewrite Hdb, elem_of_union, elem_of_list_to_set.
      right. apply py_range_elem. lia. }
    destruct (Hb 0 w Hw) as [?|(_ & ak & Hak & ?)]; [done|].
    destruct (Ha 0 ak Hak) as [?|[_ ?]]; [done|]. lia. }
  rewrite Hpa in Hai. rewrite Hpb in Hbi.
  destruct (decide (i = num_customers + 1)) as [->|Hlast].
  { rewrite lookup_insert_eq in Hai, Hbi. simplify_eq. lia. }
  rewrite lookup_insert_ne in Hai, Hbi by done.
  destruct (decide (i = 0)) as [->|Hfirst].
  { rewrite lookup_insert_eq in Hai, Hbi. simplify_eq. lia. }
  rewrite lookup_insert_ne in Hai, Hbi by done.
  destruct (Hb i bi Hbi) as [?|(_ & ak & Hak & ?)]; [done|].
  assert (ak = ai) as -> by congruence.
  destruct (Ha i ai Hai) as [?|[_ ?]]; [done|]. lia.
Qed.

Lemma generated_windows_witness :
  ∃ p g',
    generate_vrptw_parameters 2 1 (10, 50) (5, 30) (5, 15) 20 (0, 100) 1000
      None (λ _, []) [] = Ok (p, g') ∧
    Parameters.a p !! 1 = Some 0 ∧
    Parameters.b p !! 1 = Some 1 ∧
    0 < 1 ∧
    (1 ≤ 1 ≤ 1 → 0 ≤ 0 ∧ 1 ≤ 100) ∧
    (1 = 0 ∨ 1 = 1 + 1 → 0 = 0 ∧ 1 = 100).
Proof.
  eexists _, _. split; [vm_compute; reflexivity|].
  split; [vm_compute; reflexivity|]. split; [vm_compute; reflexivity|].
  eapply (generated_windows 2 1 (10, 50) (5, 30) (5, 15) 20 (0, 100) 1000
           None (λ _, []) []); [lia|simpl; lia|vm_compute; reflexivity
           |vm_compute; reflexivity|vm_compute; reflexivity].
Defined.

(** X4: the only exception the generator raises is the [ValueError] of a draw
    from an empty range. *)
Theorem generator_raises_only_value_error (num_vehicles num_customers : Z)
    (cost_range time_range demand_range : Z * Z) (capacity : Z)
    (time_window_range : Z * Z) (large_constant : Z) (seed : option Z)
    (reseed : Z → rng) (g : rng) (e : exn) :
  generate_vrptw_parameters num_vehicles num_customers cost_range time_range
    demand_range capacity time_window_range large_constant seed reseed g
    = Raise e →
  e = ValueError.
Proof.
  unfold generate_vrptw_parameters.
  destruct (draw_dict (arcs_of _) cost_range.1 _ _ _) as [[cij gb]|e1] eqn:Hc;
    cbn [bind]; [|intros [= <-]; by eapply draw_dict_raise].
  destruct (draw_dict (arcs_of _) time_range.1 _ _ _) as [[tij gc]|e1] eqn:Ht;
    cbn [bind]; [|intros [= <-]; by eapply draw_dict_raise].
  destruct (draw_dict (py_range 1 _) _ _ _ _) as [[di gd]|e1] eqn:Hd;
    cbn [bind]; [|intros [= <-]; by eapply draw_dict_raise].
  destruct (draw_dict (py_range 0 _) _ _ _ _) as [[a0 ge]|e1] eqn:Ha;
    cbn [bind]; [|intros [= <-]; by eapply draw_dict_raise].
  destruct (draw_ends _ a0 _ _ _) as [[b0 gf]|e1] eqn:Hb;
    cbn [bind]; [done|].
  intros [= <-]. eapply draw_ends_raise; [|exact Hb].
  apply draw_dict_ok in Ha as [-> _]. apply union_subseteq_r.
Qed.

Lemma generator_raises_only_value_error_witness :
  ∃ e,
    generate_vrptw_parameters 2 1 (10, 50) (5, 30) (5, 15) 20 (5, 5) 1000
      None (λ _, []) [] = Raise e ∧
    e = ValueError.
Proof.
  eexists. split; [vm_compute; reflexivity|].
  apply (generator_raises_only_value_error 2 1 (10, 50) (5, 30) (5, 15) 20
           (5, 5) 1000 None (λ _, []) []).
  vm_compute; reflexivity.
Defined.

(** X5: a window range of at most one point leaves no room for an end after
    the start: with at least one node, the generator returns no instance,
    whatever it draws. *)
Theorem generator_needs_wide_windows (num_vehicles num_customers : Z)
    (cost_range time_range demand_range : Z * Z) (capacity : Z)
    (time_window_range : Z * Z) (large_constant : Z) (seed : option Z)
    (reseed : Z → rng) (g g' : rng) (p : Parameters.t) :
  -1 ≤ num_customers →
  time_window_range.2 ≤ time_window_range.1 →
  generate_vrptw_parameters num_vehicles num_customers cost_range time_range
    demand_range capacity time_window_range large_constant seed reseed g
    ≠ Ok (p, g').
Proof.
  intros Hn Htw (a0 & b0 & ga & gb & gc & gd & ge & gf & _ & _ & _ & Ha & Hb
                 & _)%generate_vrptw_parameters_inv.
  apply draw_dict_ok in Ha as [_ Ha]. apply draw_ends_ok in Hb as [Hdb Hb].
  assert (is_Some (b0 !! 0)) as [w Hw].
  { apply elem_of_dom. rewrite Hdb, elem_of_union, elem_of_list_to_set.
    right. apply py_range_elem. lia. }
  destruct (Hb 0 w Hw) as [?|(_ & ak & Hak & ?)]; [done|].
  destruct (Ha 0 ak Hak) as [?|[_ ?]]; [done|]. lia.
Qed.

Lemma generator_needs_wide_windows_witness :
  -1 ≤ 1 ∧ (5, 5).2 ≤ (5, 5).1 ∧
  generate_vrptw_parameters 2 1 (10, 50) (5, 30) (5, 15) 20 (5, 5) 1000
    None (λ _, []) [4; 9]%N
  ≠ Ok (Parameters.Build [] [] [] ∅ ∅ ∅ 0 ∅ ∅ 0, []).
Proof.
  split; [lia|]. split; [simpl; lia|].
  eapply (generator_needs_wide_windows 2 1 (10, 50) (5, 30) (5, 15) 20 (5, 5)
           1000 None (λ _, []) [4; 9]%N); [lia|simpl; lia].
Defined.

(** X6: on a generated instance the cost evaluator accepts what the
    feasibility check accepts: the cost matrix covers every arc that has a
    travel time, so a feasible solution evaluates to a finite cost. *)
Theorem generated_instance_feasible_finite (num_vehicles num_customers : Z)
    (cost_range time_range demand_range : Z * Z) (capacity : Z)
    (time_window_range : Z * Z) (large_constant : Z) (seed : option Z)
    (reseed : Z → rng) (g g' : rng) (p : Parameters.t)
    (global_num_vehicles : Z) (x : ledger) (routes : list (list Z)) :
  generate_vrptw_parameters num_vehicles num_customers cost_range time_range
    demand_range capacity time_window_range large_constant seed reseed g
    = Ok (p, g') →
  is_feasible routes (Parameters.tij p) (Parameters.di p) (Parameters.q p)
    (Parameters.a p) (Parameters.b p) (Parameters.K p) = Ok true →
  ∃ c, calculate_cost global_num_vehicles x (Parameters.cij p)
         (Parameters.tij p) (Parameters.a p) (Parameters.b p)
         (Parameters.q p) (Parameters.di p) routes = Ok (Fin c).
Proof.
  intros (a0 & b0 & ga & gb & gc & gd & ge & gf & Hc & Ht & _)
           %generate_vrptw_parameters_inv Hfeas.
  apply draw_dict_ok in Hc as [Hc _]. apply draw_dict_ok in Ht as [Ht _].
  unfold is_feasible in Hfeas. case_bool_decide; [done|].
  unfold calculate_cost. apply feasible_routes_have_cost; [|done].
  intros i j Hij. apply elem_of_dom. rewrite Hc, <- Ht. by apply elem_of_dom.
Qed.

Lemma generated_instance_feasible_finite_witness :
  ∃ p g',
    generate_vrptw_parameters 1 1 (10, 50) (5, 30) (5, 15) 20 (0, 100) 1000
      None (λ _, []) (replicate 17 0%N ++ [98%N]) = Ok (p, g') ∧
    is_feasible [[0; 1; 2]] (Parameters.tij p) (Parameters.di p)
      (Parameters.q p) (Parameters.a p) (Parameters.b p) (Parameters.K p)
      = Ok true ∧
    ∃ c, calculate_cost 1 (new_ledger 1) (Parameters.cij p)
           (Parameters.tij p) (Parameters.a p) (Parameters.b p)
           (Parameters.q p) (Parameters.di p) [[0; 1; 2]] = Ok (Fin c).
Proof.
  eexists _, _. split; [vm_compute; reflexivity|].
  split; [vm_compute; reflexivity|].
  eapply (generated_instance_feasible_finite 1 1 (10, 50) (5, 30) (5, 15) 20
           (0, 100) 1000 None (λ _, []) (replicate 17 0%N ++ [98%N]));
    vm_compute; reflexivity.
Defined.

(** ** More on the evaluators *)

Section EvaluatorMore.
Variables (cij tij : gmap (Z * Z) Z) (a b : gmap Z Z) (q : Z) (di : gmap Z Z).

Lemma route_arcs_cons (i j : Z) (rest : list Z) :
  route_arcs (i :: j :: rest) = (i, j) :: route_arcs (j :: rest).
Proof. reflexivity. Qed.

(** A walk from the running total [t] is the walk from [0], moved up by
    [t]; the vehicle index and the ledger play no part. *)
Lemma calculate_cost_route_shift (k k' : nat) (route : list Z) (x x' : ledger)
    (t load arrival_time : Z) :
  walked (calculate_cost_route cij tij a b q di k route x t load arrival_time)
  = match walked (calculate_cost_route cij tij a b q di k' route x' 0 load
                    arrival_time) with
    | Ok (Running s) => Ok (Running (t + s))
    | r => r
    end.
Proof.
  revert k k' x x' t load arrival_time.
  assert (∀ k (r : list Z) x t l at',
            (length r < 2)%nat →
            walked (calculate_cost_route cij tij a b q di k r x t l at')
            = Ok (Running t)) as Hshort.
  { intros k0 r x t l at' Hr.
    by rewrite calculate_cost_route_short. }
  induction route as [|i route IH]; intros k k' x x' t load arrival_time.
  { rewrite !Hshort by (simpl; lia). f_equal. f_equal. lia. }
  destruct route as [|j rest].
  { rewrite !Hshort by (simpl; lia). f_equal. f_equal. lia. }
  rewrite !calculate_cost_route_step. cbv zeta.
  destruct (getitem cij (i, j)) as [c|e]; cbn [bind walked]; [|done].
  destruct (getitem tij (i, j)) as [tt|e]; cbn [bind walked]; [|done].
  destruct (getitem a j) as [aj|e]; cbn [bind walked]; [|done].
  destruct (getitem b j) as [bj|e]; cbn [bind walked]; [|done].
  case_bool_decide; cbn [walked]; [done|].
  destruct (di !! j) as [d|].
  - case_bool_decide; cbn [walked]; [done|].
    rewrite (IH k k' _ (<[inr (k', i, j):=One]> x') (t + c)).
    rewrite (IH k' k' (<[inr (k', i, j):=One]> x') (<[inr (k', i, j):=One]> x')
               (0 + c)).
    destruct (walked _) as [[r|s]|e]; try done. do 2 f_equal. lia.
  - rewrite (IH k k' _ (<[inr (k', i, j):=One]> x') (t + c)).
    rewrite (IH k' k' (<[inr (k', i, j):=One]> x') (<[inr (k', i, j):=One]> x')
               (0 + c)).
    destruct (walked _) as [[r|s]|e]; try done. do 2 f_equal. lia.
Qed.

(** The walk of [calculate_cost] only ever returns the sentinel. *)
Lemma calculate_cost_route_returns (k : nat) (route : list Z) (x : ledger)
    (t load arrival_time : Z) (c : cost) :
  calculate_cost_route cij tij a b q di k route x t load arrival_time
    = Ok (Returned c) →
  c = Inf.
Proof.
  revert x t load arrival_time.
  induction route as [|i route IH]; intros x t load arrival_time; [done|].
  destruct route as [|j rest]; [done|].
  rewrite calculate_cost_route_step. cbv zeta.
  intros H. bind_inv H. bind_inv H. bind_inv H. bind_inv H.
  case_bool_decide; [congruence|].
  destruct (di !! j); [case_bool_decide; [congruence|]|]; eauto.
Qed.

Lemma calculate_cost_routes_shift (k k' : nat) (routes : list (list Z))
    (x x' : ledger) (t : Z) :
  calculate_cost_routes cij tij a b q di k routes x t
  = match calculate_cost_routes cij tij a b q di k' routes x' 0 with
    | Ok c => Ok (cost_add t c)
    | Raise e => Raise e
    end.
Proof.
  revert k k' x x' t. induction routes as [|route routes IH];
    intros k k' x x' t; simpl.
  { do 2 f_equal. lia. }
  pose proof (calculate_cost_route_shift k k' route x x' t 0 0) as Hw.
  destruct (calculate_cost_route _ _ _ _ _ _ k route x t 0 0)
    as [[c|[x1 t1]]|e] eqn:Hk;
    destruct (calculate_cost_route _ _ _ _ _ _ k' route x' 0 0 0)
      as [[c'|[x1' t1']]|e'] eqn:Hk'; simpl in Hw; try discriminate.
  - apply calculate_cost_route_returns in Hk as ->.
    by apply calculate_cost_route_returns in Hk' as ->.
  - injection Hw as ->.
    rewrite (IH (S k) (S k') x1 x1' (t + t1')).
    rewrite (IH (S k') (S k') x1' x1' t1').
    destruct (calculate_cost_routes _ _ _ _ _ _ _ routes _ 0) as [[z|]|e];
      simpl; try done.
    do 2 f_equal. lia.
  - by injection Hw as ->.
Qed.

(** A completed walk has added the costs of the arcs of the route. *)
Lemma calculate_cost_route_sum (k : nat) (route : list Z) (x x' : ledger)
    (t t' load arrival_time : Z) :
  calculate_cost_route cij tij a b q di k route x t load arrival_time
    = Ok (Running (x', t')) →
  t' = t + foldr Z.add 0 ((λ arc, default 0 (cij !! arc)) <$> route_arcs route)
  ∧ Forall (λ arc, is_Some (cij !! arc)) (route_arcs route).
Proof.
  revert x t load arrival_time.
  induction route as [|i route IH]; intros x t load arrival_time.
  { intros [= <- <-]. simpl. split; [lia|constructor]. }
  destruct route as [|j rest].
  { intros [= <- <-]. simpl. split; [lia|constructor]. }
  rewrite calculate_cost_route_step, route_arcs_cons. cbv zeta.
  intros H. bind_inv H. bind_inv H. bind_inv H. bind_inv H.
  apply getitem_ok in Hv.
  assert (calculate_cost_route cij tij a b q di k (j :: rest)
            (<[inr (k, i, j):=One]> x) (t + v)
            (match di !! j with Some d => load + d | None => load end)
            ((arrival_time + v0) `max` v1) = Ok (Running (x', t'))) as Hrest.
  { case_bool_decide; [congruence|].
    destruct (di !! j); [case_bool_decide; [congruence|]|]; done. }
  apply IH in Hrest as [-> Hall]. simpl. rewrite Hv. simpl.
  split; [symmetry; apply Z.add_assoc|]. constructor; [by eexists|done].
Qed.

Lemma sum_app (xs ys : list Z) :
  foldr Z.add 0 (xs ++ ys) = foldr Z.add 0 xs + foldr Z.add 0 ys.
Proof. induction xs as [|x xs IH]; simpl; lia. Qed.

Lemma sum_nonneg (xs : list Z) : Forall (λ z, 0 ≤ z) xs → 0 ≤ foldr Z.add 0 xs.
Proof. induction 1; simpl; lia. Qed.

Lemma calculate_cost_routes_sum (k : nat) (routes : list (list Z)) (x : ledger)
    (t c : Z) :
  calculate_cost_routes cij tij a b q di k routes x t = Ok (Fin c) →
  c = t + total_arc_cost cij routes ∧
  Forall (λ arc, is_Some (cij !! arc)) (routes ≫= route_arcs).
Proof.
  revert k x t. induction routes as [|route routes IH]; intros k x t; simpl.
  { intros [= <-]. split; [unfold total_arc_cost; simpl; lia|constructor]. }
  destruct (calculate_cost_route _ _ _ _ _ _ k route x t 0 0)
    as [[c'|[x1 t1]]|e] eqn:Hwalk; [|
    |done].
  { apply calculate_cost_route_returns in Hwalk as ->. done. }
  apply calculate_cost_route_sum in Hwalk as [-> Hroute].
  intros [-> Hrest]%IH. unfold total_arc_cost.
  rewrite bind_cons, fmap_app, sum_app. split; [lia|].
  by apply Forall_app.
Qed.

(** The walks of the two evaluators make the same tests: a walk that
    [calculate_cost] completes is completed by [is_feasible]. *)
Lemma cost_walk_is_feasible_walk (k : nat) (route : list Z) (x : ledger)
    (t load arrival_time : Z) (s : ledger * Z) :
  calculate_cost_route cij tij a b q di k route x t load arrival_time
    = Ok (Running s) →
  ∃ s', is_feasible_route tij di q a b route load arrival_time
          = Ok (Running s').
Proof.
  revert x t load arrival_time.
  induction route as [|i route IH]; intros x t load arrival_time;
    [simpl; eauto|].
  destruct route as [|j rest]; [simpl; eauto|].
  rewrite is_feasible_route_step, calculate_cost_route_step. cbv zeta.
  intros H. bind_inv H. bind_inv H. bind_inv H. bind_inv H.
  rewrite Hv0, Hv1, Hv2. cbn [bind].
  case_bool_decide as Hlate; [discriminate|].
  destruct (di !! j) as [d|] eqn:Hd; cbv beta iota.
  - case_bool_decide as Hload; [discriminate|].
    rewrite andb_false_r. eauto.
  - rewrite (bool_decide_false (is_Some None)) by (by intros [? ?]).
    cbn [andb]. eauto.
Qed.

Lemma bad_endpoints_good (route : list Z) :
  bad_endpoints b route = Ok false ↔ good_endpoints b route.
Proof.
  unfold bad_endpoints, good_endpoints, list_getitem, norm_index.
  destruct route as [|i route]; [simpl; split; [done|by intros [? ?]]|].
  rewrite (bool_decide_false (0 < 0)) by lia.
  rewrite bool_decide_true by (simpl; lia).
  rewrite (bool_decide_true (-1 < 0)) by lia.
  rewrite bool_decide_true by (simpl; lia).
  cbn [bind head].
  change ((i :: route) !! Z.to_nat 0) with (Some i).
  cbn [bind].
  replace (Z.to_nat (-1 + Z.of_nat (length (i :: route))))
    with (pred (length (i :: route))) by (simpl; lia).
  rewrite <- last_lookup.
  destruct (last (i :: route)) as [z|] eqn:Hlast.
  - cbn [bind]. case_bool_decide as Hi; [|case_bool_decide as Hz].
    + split; [done|]. intros [[= ->] _]. done.
    + split; [done|]. intros [_ [= ->]]. done.
    + split; [|done]. intros _.
      split; f_equal; [by destruct (decide (i = 0))|].
      by destruct (decide (z = len b - 1)).
  - by apply last_None in Hlast.
Qed.

Lemma cost_routes_feasible (k : nat) (routes : list (list Z)) (x : ledger)
    (t c : Z) :
  calculate_cost_routes cij tij a b q di k routes x t = Ok (Fin c) →
  Forall (good_endpoints b) routes →
  is_feasible_routes tij di q a b routes = Ok true.
Proof.
  intros Hcost Hgood. revert k x t Hcost.
  induction Hgood as [|route routes Hroute _ IH]; intros k x t; simpl; [done|].
  destruct (calculate_cost_route _ _ _ _ _ _ k route x t 0 0)
    as [[c'|[x1 t1]]|e] eqn:Hwalk; [|
    |done].
  { apply calculate_cost_route_returns in Hwalk as ->. done. }
  destruct (cost_walk_is_feasible_walk _ _ _ _ _ _ _ Hwalk) as [s' ->].
  apply bad_endpoints_good in Hroute as ->. cbn [bind]. apply IH.
Qed.

Lemma feasible_routes_good (routes : list (list Z)) :
  is_feasible_routes tij di q a b routes = Ok true →
  Forall (good_endpoints b) routes.
Proof.
  induction routes as [|route routes IH]; simpl; [constructor|].
  destruct (is_feasible_route _ _ _ _ _ route 0 0) as [[v|s]|e] eqn:Hwalk;
    [|
    |done].
  { apply is_feasible_route_returns in Hwalk as ->. done. }
  destruct (bad_endpoints b route) as [[]|e] eqn:Hbad; cbn [bind]; try done.
  intros Hrest. constructor; [by apply bad_endpoints_good|by apply IH].
Qed.

Lemma route_demand_cons (i j : Z) (rest : list Z) :
  route_demand di (i :: j :: rest)
  = default 0 (di !! j) + route_demand di (j :: rest).
Proof. reflexivity. Qed.

(** The load of a completed walk of [is_feasible]. *)
Lemma is_feasible_route_load (route : list Z) (load arrival_time : Z)
    (load' arrival' : Z) :
  is_feasible_route tij di q a b route load arrival_time
    = Ok (Running (load', arrival')) →
  load' = load + route_demand di route ∧ (load ≤ q → load' ≤ q).
Proof.
  revert load arrival_time.
  induction route as [|i route IH]; intros load arrival_time.
  { intros [= <- <-]. unfold route_demand. simpl. lia. }
  destruct route as [|j rest].
  { intros [= <- <-]. unfold route_demand. simpl. lia. }
  rewrite is_feasible_route_step. cbv zeta.
  destruct (bool_decide (is_Some (di !! j)) && _) eqn:Hcap; [discriminate|].
  intros H. bind_inv H. bind_inv H. bind_inv H.
  case_bool_decide; [discriminate|].
  apply IH in H as [-> Hle]. clear IH.
  pose proof (route_demand_cons i j rest) as Hrd.
  destruct (di !! j) as [d|] eqn:Hd; simpl in Hrd.
  - rewrite bool_decide_true in Hcap by eauto. cbn [andb] in Hcap.
    apply bool_decide_eq_false in Hcap. lia.
  - lia.
Qed.

Lemma feasible_routes_capacity (routes : list (list Z)) :
  0 ≤ q →
  is_feasible_routes tij di q a b routes = Ok true →
  Forall (λ route, route_demand di route ≤ q) routes.
Proof.
  intros Hq. induction routes as [|route routes IH]; simpl; [constructor|].
  destruct (is_feasible_route _ _ _ _ _ route 0 0) as [[v|[l' a']]|e] eqn:Hwalk;
    [|
    |done].
  { apply is_feasible_route_returns in Hwalk as ->. done. }
  destruct (bad_endpoints b route) as [[]|e] eqn:Hbad; cbn [bind]; try done.
  intros Hrest. constructor; [|by apply IH].
  apply is_feasible_route_load in Hwalk as [-> Hle]. simpl. lia.
Qed.

(** The set of constraint (2.2): the nodes of the routes other than [0] and
    [len(b) - 1]. *)
Lemma customers_visited_elem (routes : list (list Z)) (i : Z) :
  i ∈ customers_visited b routes ↔
  i ∈ concat routes ∧ i ≠ 0 ∧ i ≠ len b - 1.
Proof.
  unfold customers_visited.
  assert (∀ (route : list Z) (s : gset Z),
            i ∈ foldl (λ visited i,
                         if bool_decide (i ≠ 0 ∧ i ≠ len b - 1)
                         then {[ i ]} ∪ visited else visited) s route ↔
            i ∈ s ∨ (i ∈ route ∧ i ≠ 0 ∧ i ≠ len b - 1)) as Hinner.
  { induction route as [|j route IH]; intros s; simpl.
    - rewrite elem_of_nil. tauto.
    - rewrite IH, elem_of_cons. case_bool_decide as Hj.
      + rewrite elem_of_union, elem_of_singleton. split; [|tauto].
        intros [[->|?]|?]; tauto.
      + split; [tauto|]. intros [?|[[->|?] ?]]; tauto. }
  assert (∀ (rs : list (list Z)) (s : gset Z),
            i ∈ foldl (λ visited route,
                         foldl (λ visited i,
                                  if bool_decide (i ≠ 0 ∧ i ≠ len b - 1)
                                  then {[ i ]} ∪ visited else visited)
                               visited route) s rs ↔
            i ∈ s ∨ (i ∈ concat rs ∧ i ≠ 0 ∧ i ≠ len b - 1)) as Houter.
  { induction rs as [|r rs IH]; intros s; simpl.
    - rewrite elem_of_nil. tauto.
    - rewrite IH, Hinner, elem_of_app. tauto. }
  rewrite Houter, elem_of_empty. tauto.
Qed.
End EvaluatorMore.

Lemma calculate_cost_routes_app (cij tij : gmap (Z * Z) Z) (a b : gmap Z Z)
    (q : Z) (di : gmap Z Z) (k k2 : nat) (routes1 routes2 : list (list Z))
    (x x2 : ledger) (t : Z) :
  calculate_cost_routes cij tij a b q di k (routes1 ++ routes2) x t
  = match calculate_cost_routes cij tij a b q di k routes1 x t with
    | Ok (Fin t1) =>
        match calculate_cost_routes cij tij a b q di k2 routes2 x2 0 with
        | Ok c2 => Ok (cost_add t1 c2)
        | Raise e => Raise e
        end
    | r => r
    end.
Proof.
  revert k x t. induction routes1 as [|route routes1 IH]; intros k x t.
  - simpl. apply calculate_cost_routes_shift.
  - simpl.
    destruct (calculate_cost_route _ _ _ _ _ _ k route x t 0 0)
      as [[c|[x1 t1]]|e] eqn:Hwalk; [|apply IH|done].
    by apply calculate_cost_route_returns in Hwalk as ->.
Qed.

(** C1, amended: on an instance in which every arc that has a travel time
    has a cost, let [S] be a solution that [is_feasible] accepts and [I] a
    solution that [is_feasible] rejects although its coverage count and its
    route endpoints are in order, that is, for its load or its time windows.
    Then [calculate_cost] gives [S] a finite cost, and whenever it returns
    on [I] it returns the sentinel, so that the cost of [S] is below the
    cost of [I]. *)
Theorem feasible_beats_infeasible (num_vehicles : Z) (x : ledger)
    (cij tij : gmap (Z * Z) Z) (a b : gmap Z Z) (q : Z) (di : gmap Z Z) (K : Z)
    (S I : list (list Z)) (cI : cost) :
  dom tij ⊆ dom cij →
  is_feasible S tij di q a b K = Ok true →
  is_feasible I tij di q a b K = Ok false →
  size (customers_visited b I) = size di →
  Forall (good_endpoints b) I →
  calculate_cost num_vehicles x cij tij a b q di I = Ok cI →
  ∃ cS,
    calculate_cost num_vehicles x cij tij a b q di S = Ok (Fin cS) ∧
    cI = Inf ∧
    cost_lt (Fin cS) cI = true.
Proof.
  intros Hdom HS HI Hsize Hgood HcI. unfold is_feasible in HS, HI.
  rewrite bool_decide_false in HI by (intros Hne; by apply Hne).
  case_bool_decide; [discriminate|].
  destruct (feasible_routes_have_cost cij tij a b q di 0 S
              (new_ledger num_vehicles) 0) as [c Hc]; [|done|].
  { intros i j Ht. apply elem_of_dom, Hdom, elem_of_dom, Ht. }
  exists c. split; [exact Hc|].
  destruct cI as [z|]; [|done].
  unfold calculate_cost in HcI.
  rewrite (cost_routes_feasible _ _ _ _ _ _ _ _ _ _ _ HcI Hgood) in HI.
  discriminate.
Qed.

(** On the notebook's instance: [exact_routes] against the solution
    [[0, 2, 4], [0, 3, 1, 4]], which covers every customer from depot to
    depot and overloads its second vehicle. *)
Lemma feasible_beats_infeasible_witness :
  is_feasible [[0; 2; 4]; [0; 3; 1; 4]] Notebook.tij Notebook.di Notebook.q
    Notebook.a Notebook.b Notebook.K = Ok false ∧
  calculate_cost Notebook.num_vehicles Notebook.x Notebook.cij Notebook.tij
    Notebook.a Notebook.b Notebook.q Notebook.di [[0; 2; 4]; [0; 3; 1; 4]]
    = Ok Inf ∧
  ∃ cS,
    calculate_cost Notebook.num_vehicles Notebook.x Notebook.cij Notebook.tij
      Notebook.a Notebook.b Notebook.q Notebook.di Notebook.exact_routes
      = Ok (Fin cS) ∧
    Inf = Inf ∧
    cost_lt (Fin cS) Inf = true.
Proof.
  split; [vm_compute; reflexivity|]. split; [vm_compute; reflexivity|].
  apply (feasible_beats_infeasible Notebook.num_vehicles Notebook.x
           Notebook.cij Notebook.tij Notebook.a Notebook.b Notebook.q
           Notebook.di Notebook.K Notebook.exact_routes
           [[0; 2; 4]; [0; 3; 1; 4]] Inf).
  - apply (bool_decide_unpack _). vm_compute. reflexivity.
  - vm_compute. reflexivity.
  - vm_compute. reflexivity.
  - vm_compute. reflexivity.
  - apply (bool_decide_unpack _). vm_compute. reflexivity.
  - vm_compute. reflexivity.
Defined.

(** X7: a finite cost is the total cost of the arcs walked, every one of which
    has an entry in the cost matrix; with non-negative costs it is not
    negative. *)
Theorem finite_cost_is_arc_sum (num_vehicles : Z) (x : ledger)
    (cij tij : gmap (Z * Z) Z) (a b : gmap Z Z) (q : Z) (di : gmap Z Z)
    (routes : list (list Z)) (c : Z) :
  calculate_cost num_vehicles x cij tij a b q di routes = Ok (Fin c) →
  c = total_arc_cost cij routes ∧
  Forall (λ arc, is_Some (cij !! arc)) (routes ≫= route_arcs) ∧
  (map_Forall (λ _ v, 0 ≤ v) cij → 0 ≤ c).
Proof.
  unfold calculate_cost. intros [-> Hall]%calculate_cost_routes_sum.
  split; [lia|]. split; [done|]. intros Hpos.
  rewrite Z.add_0_l. apply sum_nonneg, Forall_fmap.
  eapply Forall_impl; [exact Hall|]. intros arc [v Hv]. simpl.
  rewrite Hv. simpl. by eapply Hpos.
Qed.

Lemma finite_cost_is_arc_sum_witness :
  calculate_cost Notebook.num_vehicles Notebook.x Notebook.cij Notebook.tij
    Notebook.a Notebook.b Notebook.q Notebook.di Notebook.exact_routes
    = Ok (Fin 128) ∧
  128 = total_arc_cost Notebook.cij Notebook.exact_routes ∧
  Forall (λ arc, is_Some (Notebook.cij !! arc))
         (Notebook.exact_routes ≫= route_arcs) ∧
  (map_Forall (λ _ v, 0 ≤ v) Notebook.cij → 0 ≤ 128).
Proof.
  split; [vm_compute; reflexivity|].
  apply (finite_cost_is_arc_sum Notebook.num_vehicles Notebook.x Notebook.cij
           Notebook.tij Notebook.a Notebook.b Notebook.q Notebook.di).
  vm_compute; reflexivity.
Defined.

(** X8: the arc ledger is bookkeeping only: neither the argument [x] nor the
    global fleet size changes what [calculate_cost] returns or raises. *)
Theorem calculate_cost_ignores_ledger (num_vehicles num_vehicles' : Z)
    (x x' : ledger) (cij tij : gmap (Z * Z) Z) (a b : gmap Z Z) (q : Z)
    (di : gmap Z Z) (routes : list (list Z)) :
  calculate_cost num_vehicles x cij tij a b q di routes
  = calculate_cost num_vehicles' x' cij tij a b q di routes.
Proof.
  unfold calculate_cost.
  rewrite (calculate_cost_routes_shift cij tij a b q di 0 0 routes
             (new_ledger num_vehicles) (new_ledger num_vehicles') 0).
  destruct (calculate_cost_routes _ _ _ _ _ _ 0 routes _ 0) as [[z|]|e];
    simpl; try done.
Qed.

(** X9: the cost of two groups of routes put together: the sum of their costs
    when both are finite, the sentinel as soon as one of them is the
    sentinel, and the exception of the first group that raises one. The
    first group is evaluated first: if it is the sentinel, the second is
    not walked at all. *)
Theorem calculate_cost_app (num_vehicles : Z) (x : ledger)
    (cij tij : gmap (Z * Z) Z) (a b : gmap Z Z) (q : Z) (di : gmap Z Z)
    (routes1 routes2 : list (list Z)) :
  calculate_cost num_vehicles x cij tij a b q di (routes1 ++ routes2)
  = match calculate_cost num_vehicles x cij tij a b q di routes1 with
    | Ok (Fin c1) =>
        match calculate_cost num_vehicles x cij tij a b q di routes2 with
        | Ok c2 => Ok (cost_add c1 c2)
        | Raise e => Raise e
        end
    | r => r
    end.
Proof.
  unfold calculate_cost. apply calculate_cost_routes_app.
Qed.

(** X10: what [is_feasible] accepts, on an instance in which every arc that
    has a travel time has a cost: exactly the solutions with as many
    distinct non-depot nodes as there are demands, whose routes all start
    at [0] and end at [len(b) - 1], and on which [calculate_cost] is
    finite. *)
Theorem is_feasible_characterised (num_vehicles : Z) (x : ledger)
    (cij tij : gmap (Z * Z) Z) (a b : gmap Z Z) (q : Z) (di : gmap Z Z)
    (K : Z) (routes : list (list Z)) :
  dom tij ⊆ dom cij →
  is_feasible routes tij di q a b K = Ok true ↔
  size (customers_visited b routes) = size di ∧
  Forall (good_endpoints b) routes ∧
  ∃ c, calculate_cost num_vehicles x cij tij a b q di routes = Ok (Fin c).
Proof.
  intros Hdom. unfold is_feasible, calculate_cost. split.
  - case_bool_decide as Hsize; [done|]. intros Hfeas.
    split; [by destruct (decide (size (customers_visited b routes) = size di))|].
    split; [by eapply feasible_routes_good|].
    apply feasible_routes_have_cost; [|done].
    intros i j Ht. apply elem_of_dom, Hdom, elem_of_dom, Ht.
  - intros (Hsize & Hgood & c & Hc).
    rewrite bool_decide_false by (by intros ?).
    by eapply cost_routes_feasible.
Qed.

Lemma is_feasible_characterised_witness :
  dom Notebook.tij ⊆ dom Notebook.cij ∧
  (is_feasible Notebook.exact_routes Notebook.tij Notebook.di Notebook.q
     Notebook.a Notebook.b Notebook.K = Ok true ↔
   size (customers_visited Notebook.b Notebook.exact_routes)
     = size Notebook.di ∧
   Forall (good_endpoints Notebook.b) Notebook.exact_routes ∧
   ∃ c, calculate_cost Notebook.num_vehicles Notebook.x Notebook.cij
          Notebook.tij Notebook.a Notebook.b Notebook.q Notebook.di
          Notebook.exact_routes = Ok (Fin c)).
Proof.
  split; [apply (bool_decide_unpack _); vm_compute; reflexivity|].
  apply (is_feasible_characterised Notebook.num_vehicles Notebook.x
           Notebook.cij Notebook.tij Notebook.a Notebook.b Notebook.q
           Notebook.di Notebook.K Notebook.exact_routes).
  apply (bool_decide_unpack _); vm_compute; reflexivity.
Defined.

(** X11: a solution that [is_feasible] accepts respects the capacity (taken
    non-negative): on every route the demands of the nodes visited after
    the first one add up to at most [q]. *)
Theorem feasible_respects_capacity (tij : gmap (Z * Z) Z) (di : gmap Z Z)
    (q : Z) (a b : gmap Z Z) (K : Z) (routes : list (list Z)) :
  0 ≤ q →
  is_feasible routes tij di q a b K = Ok true →
  Forall (λ route, route_demand di route ≤ q) routes.
Proof.
  intros Hq. unfold is_feasible. case_bool_decide; [done|].
  by apply feasible_routes_capacity.
Qed.

Lemma feasible_respects_capacity_witness :
  0 ≤ Notebook.q ∧
  is_feasible Notebook.feasible_routes Notebook.tij Notebook.di Notebook.q
    Notebook.a Notebook.b Notebook.K = Ok true ∧
  Forall (λ route, route_demand Notebook.di route ≤ Notebook.q)
         Notebook.feasible_routes.
Proof.
  split; [vm_compute; discriminate|]. split; [vm_compute; reflexivity|].
  apply (feasible_respects_capacity Notebook.tij Notebook.di Notebook.q
           Notebook.a Notebook.b Notebook.K);
    [vm_compute; discriminate|vm_compute; reflexivity].
Defined.

(** X12: a solution that leaves a customer out is rejected at the coverage
    test: when every visited node other than the depots has a demand and
    some node with a demand is not visited, [is_feasible] returns [False],
    before reading any travel time or window. *)
Theorem missing_customer_rejected (tij : gmap (Z * Z) Z) (di : gmap Z Z)
    (q : Z) (a b : gmap Z Z) (K : Z) (routes : list (list Z)) (c : Z) :
  (∀ i, i ∈ concat routes → i ≠ 0 → i ≠ len b - 1 → is_Some (di !! i)) →
  is_Some (di !! c) →
  c ∉ concat routes →
  is_feasible routes tij di q a b K = Ok false.
Proof.
  intros Hsub Hc Hout. unfold is_feasible. rewrite bool_decide_true; [done|].
  assert (customers_visited b routes ⊂ dom di) as Hstrict.
  { split.
    - intros i (Hi & H0 & Hn)%customers_visited_elem.
      apply elem_of_dom. by apply Hsub.
    - intros Hall. apply elem_of_dom in Hc.
      apply Hall, customers_visited_elem in Hc as [Hin _]. done. }
  apply subset_size in Hstrict. rewrite size_dom in Hstrict. lia.
Qed.

Lemma missing_customer_rejected_witness :
  is_Some (Notebook.di !! 3) ∧ (3 ∉ concat [[0; 1; 4]; [0; 2; 4]]) ∧
  is_feasible [[0; 1; 4]; [0; 2; 4]] Notebook.tij Notebook.di Notebook.q
    Notebook.a Notebook.b Notebook.K = Ok false.
Proof.
  assert (is_Some (Notebook.di !! 3)) as H3 by (vm_compute; eauto).
  assert (3 ∉ concat [[0; 1; 4]; [0; 2; 4]]) as Hout
    by (apply (bool_decide_unpack _); vm_compute; reflexivity).
  split; [exact H3|]. split; [exact Hout|].
  apply (missing_customer_rejected Notebook.tij Notebook.di Notebook.q
           Notebook.a Notebook.b Notebook.K [[0; 1; 4]; [0; 2; 4]] 3);
    [|exact H3|exact Hout].
  apply (proj1 (Forall_forall
           (λ i, i ≠ 0 → i ≠ len Notebook.b - 1 → is_Some (Notebook.di !! i))
           _)).
  apply (bool_decide_unpack _). vm_compute. reflexivity.
Defined.


(** ** More on the move operator *)

(** What [move] returns, on any solution: its input, or the exchange of an
    interior element of one route with an interior element of another. *)
Lemma move_inv (rs new : list (list Z)) (g g' : rng) :
  move rs g = Ok (new, g') →
  new = rs ∨
  ∃ v1 v2 i j r1 r2,
    v1 ≠ v2 ∧ rs !! v1 = Some r1 ∧ rs !! v2 = Some r2 ∧
    (0 < i < length r1 - 1)%nat ∧ (0 < j < length r2 - 1)%nat ∧
    new = <[v2 := <[j := r1 !!! i]> r2]> (<[v1 := <[i := r2 !!! j]> r1]> rs).
Proof.
  unfold move. intros H. bind_inv H. destruct v as [[v1 v2] g1].
  apply sample2_range in Hv as (Hv1 & Hv2 & Hne).
  destruct (lookup_lt_is_Some_2 rs v1 Hv1) as [r1 Hr1].
  destruct (lookup_lt_is_Some_2 rs v2 Hv2) as [r2 Hr2].
  rewrite (list_lookup_total_correct _ _ _ Hr1) in H.
  rewrite (list_lookup_total_correct _ _ _ Hr2) in H.
  destruct (bool_decide (r1 ≠ []) && bool_decide (r2 ≠ []));
    [|injection H as <- <-; by left].
  bind_inv H. destruct v as [i g2]. bind_inv H. destruct v as [j g3].
  apply randint_range in Hv. apply randint_range in Hv0.
  injection H as <- <-. right.
  exists v1, v2, (Z.to_nat i), (Z.to_nat j), r1, r2.
  repeat split; try done; lia.
Qed.

Lemma concat_insert_perm (rs : list (list Z)) (v : nat) (r : list Z)
    (i : nat) (z : Z) :
  rs !! v = Some r → (i < length r)%nat →
  concat (<[v := <[i := z]> r]> rs) ≡ₚ z :: concat (<[v := delete i r]> rs).
Proof.
  intros Hv Hi. apply lookup_lt_Some in Hv as Hlt.
  rewrite !insert_take_drop by done. rewrite !concat_app, !concat_cons.
  rewrite delete_take_drop.
  rewrite <- !(assoc_L (++)). simpl.
  rewrite (assoc_L (++) (concat (take v rs))).
  rewrite <- Permutation_middle. by rewrite <- !(assoc_L (++)).
Qed.

(** The exchange moves two elements and loses none. *)
Lemma swap_perm (rs : list (list Z)) (v1 v2 i j : nat) (r1 r2 : list Z) :
  v1 ≠ v2 → rs !! v1 = Some r1 → rs !! v2 = Some r2 →
  (i < length r1)%nat → (j < length r2)%nat →
  concat (<[v2 := <[j := r1 !!! i]> r2]> (<[v1 := <[i := r2 !!! j]> r1]> rs))
  ≡ₚ concat rs.
Proof.
  intros Hne Hr1 Hr2 Hi Hj.
  set (x := r1 !!! i). set (y := r2 !!! j).
  assert (r1 !! i = Some x) as Hx by (by apply list_lookup_lookup_total_lt).
  assert (r2 !! j = Some y) as Hy by (by apply list_lookup_lookup_total_lt).
  set (rs2 := <[v2 := delete j r2]> rs).
  assert (rs2 !! v1 = Some r1) as Hr1'
    by (unfold rs2; by rewrite list_lookup_insert_ne).
  rewrite (concat_insert_perm _ v2 r2 j x)
    by (by rewrite ?list_lookup_insert_ne).
  rewrite list_insert_insert_ne by done. fold rs2.
  rewrite (concat_insert_perm rs2 v1 r1 i y) by done.
  pose proof (concat_insert_perm rs v2 r2 j y Hr2 Hj) as P.
  rewrite (list_insert_id r2 j y Hy), (list_insert_id rs v2 r2 Hr2) in P.
  pose proof (concat_insert_perm rs2 v1 r1 i x Hr1' Hi) as P'.
  rewrite (list_insert_id r1 i x Hx), (list_insert_id rs2 v1 r1 Hr1') in P'.
  fold rs2 in P. rewrite P, P'.
  apply perm_swap.
Qed.

Lemma same_frame_refl (rs : list (list Z)) : same_frame rs rs.
Proof. apply Forall2_same_length_lookup. split; [done|]. by intros k r r' -> [= ->]. Qed.

Lemma same_frame_trans (rs1 rs2 rs3 : list (list Z)) :
  same_frame rs1 rs2 → same_frame rs2 rs3 → same_frame rs1 rs3.
Proof.
  unfold same_frame. intros H12 H23.
  eapply Forall2_trans; [|exact H12|exact H23].
  intros r1 r2 r3 (? & ? & ?) (? & ? & ?). repeat split; congruence.
Qed.

Lemma swap_same_frame (rs : list (list Z)) (v1 v2 i j : nat) (r1 r2 : list Z)
    (x y : Z) :
  v1 ≠ v2 → rs !! v1 = Some r1 → rs !! v2 = Some r2 →
  (0 < i < length r1 - 1)%nat → (0 < j < length r2 - 1)%nat →
  same_frame (<[v2 := <[j := x]> r2]> (<[v1 := <[i := y]> r1]> rs)) rs.
Proof.
  intros Hne Hr1 Hr2 Hi Hj. apply Forall2_same_length_lookup.
  split; [by rewrite !length_insert|].
  intros k r' r Hr' Hr. apply lookup_lt_Some in Hr as Hk.
  destruct (decide (k = v2)) as [->|Hk2].
  { rewrite list_lookup_insert_eq in Hr' by (rewrite length_insert; lia).
    simplify_eq.
    by rewrite length_insert, insert_interior_head, insert_interior_last
      by lia. }
  rewrite list_lookup_insert_ne in Hr' by done.
  destruct (decide (k = v1)) as [->|Hk1].
  { rewrite list_lookup_insert_eq in Hr' by lia. simplify_eq.
    by rewrite length_insert, insert_interior_head, insert_interior_last
      by lia. }
  rewrite list_lookup_insert_ne in Hr' by done. by simplify_eq.
Qed.

(** A move keeps the nodes and the frame of the solution. *)
Lemma move_keeps (rs new : list (list Z)) (g g' : rng) :
  move rs g = Ok (new, g') →
  concat new ≡ₚ concat rs ∧ same_frame new rs.
Proof.
  intros [->|(v1 & v2 & i & j & r1 & r2 & Hne & Hr1 & Hr2 & Hi & Hj & ->)]
    %move_inv.
  - split; [done|apply same_frame_refl].
  - split; [apply swap_perm; try done; lia|by apply swap_same_frame].
Qed.

(** A completed call of [generate_new_solution], in terms of [move]. *)
Lemma generate_new_solution_inv (h h' : store) (routes l : loc)
    (rs : list (list Z)) (g g' : rng) :
  read_routes h routes = Ok rs →
  generate_new_solution routes h g = Ok (l, h', g') →
  ∃ new, move rs g = Ok (new, g') ∧ read_routes h' l = Ok new ∧
         h ⊆ h' ∧ h !! l = None.
Proof.
  intros Hread%read_routes_repr Hgen.
  pose proof (generate_new_solution_move h routes rs g Hread) as Hmove.
  destruct (move rs g) as [[new g1]|e]; [|congruence].
  destruct Hmove as (l1 & h1 & Hgen1 & Hsub & Hl & Hnew).
  rewrite Hgen in Hgen1. injection Hgen1 as -> -> ->.
  exists new. by rewrite read_routes_repr.
Qed.

(** X13: whenever [generate_new_solution] returns, the solution it returns
    visits the same nodes the same number of times as its input (the nodes
    of all routes, taken together, are a permutation of the input's), and
    has the same frame: as many routes, each with the length, first node
    and last node it had. *)
Theorem generate_new_solution_keeps_nodes (h h' : store) (routes l : loc)
    (rs : list (list Z)) (g g' : rng) :
  read_routes h routes = Ok rs →
  generate_new_solution routes h g = Ok (l, h', g') →
  ∃ new,
    read_routes h' l = Ok new ∧
    concat new ≡ₚ concat rs ∧ same_frame new rs.
Proof.
  intros Hread Hgen.
  destruct (generate_new_solution_inv _ _ _ _ _ _ _ Hread Hgen)
    as (new & Hmove & Hnew & _).
  exists new. split; [done|]. by eapply move_keeps.
Qed.

Lemma generate_new_solution_keeps_nodes_witness :
  ∃ l h' g',
    generate_new_solution (fst (alloc_solution ∅ Notebook.feasible_routes))
      (snd (alloc_solution ∅ Notebook.feasible_routes)) [5; 7; 0; 1]%N
      = Ok (l, h', g') ∧
    ∃ new,
      read_routes h' l = Ok new ∧
      concat new ≡ₚ concat Notebook.feasible_routes ∧
      same_frame new Notebook.feasible_routes.
Proof.
  eexists _, _, _. split; [vm_compute; reflexivity|].
  eapply (generate_new_solution_keeps_nodes
           (snd (alloc_solution ∅ Notebook.feasible_routes)) _
           (fst (alloc_solution ∅ Notebook.feasible_routes)) _
           Notebook.feasible_routes [5; 7; 0; 1]%N);
    vm_compute; reflexivity.
Defined.

(** X14: with at least two routes, none of which has exactly one or two nodes,
    [generate_new_solution] returns, whatever is drawn. *)
Theorem generate_new_solution_returns (h : store) (routes : loc)
    (rs : list (list Z)) (g : rng) :
  read_routes h routes = Ok rs →
  (2 ≤ length rs)%nat →
  Forall (λ r, r = [] ∨ (3 ≤ length r)%nat) rs →
  ∃ l h' g', generate_new_solution routes h g = Ok (l, h', g').
Proof.
  intros Hread%read_routes_repr Hlen Hlong.
  pose proof (generate_new_solution_move h routes rs g Hread) as Hmove.
  assert (∃ new g', move rs g = Ok (new, g')) as (new & g' & Hok).
  { unfold move.
    destruct (sample2 (length rs) g) as [[[v1 v2] g1]|e] eqn:Hsample.
    2:{ unfold sample2 in Hsample. rewrite bool_decide_false in Hsample by lia.
        destruct (randbelow (length rs) g) as [x1 g1].
        by destruct (randbelow (length rs - 1) g1). }
    cbn [bind]. apply sample2_range in Hsample as (Hv1 & Hv2 & Hne).
    destruct (lookup_lt_is_Some_2 rs v1 Hv1) as [r1 Hr1].
    destruct (lookup_lt_is_Some_2 rs v2 Hv2) as [r2 Hr2].
    rewrite (list_lookup_total_correct _ _ _ Hr1).
    rewrite (list_lookup_total_correct _ _ _ Hr2).
    rewrite Forall_forall in Hlong.
    destruct (Hlong r1 (list_elem_of_lookup_2 _ _ _ Hr1)) as [->|Hl1];
      [by eexists _, _|].
    destruct (Hlong r2 (list_elem_of_lookup_2 _ _ _ Hr2)) as [->|Hl2];
      [rewrite andb_false_r; by eexists _, _|].
    rewrite !bool_decide_true by (intros ->; simpl in *; lia). cbn [andb].
    unfold randint. rewrite !bool_decide_true by lia.
    destruct (randbelow _ g1) as [i g2]. cbn [bind].
    destruct (randbelow _ g2) as [j g3]. cbn [bind]. by eexists _, _. }
  rewrite Hok in Hmove. destruct Hmove as (l & h' & Hgen & _). eauto.
Qed.

Lemma generate_new_solution_returns_witness :
  ∃ l h' g',
    generate_new_solution (fst (alloc_solution ∅ Notebook.exact_routes))
      (snd (alloc_solution ∅ Notebook.exact_routes)) [3; 8; 2; 6]%N
      = Ok (l, h', g').
Proof.
  apply (generate_new_solution_returns
           (snd (alloc_solution ∅ Notebook.exact_routes))
           (fst (alloc_solution ∅ Notebook.exact_routes))
           Notebook.exact_routes [3; 8; 2; 6]%N).
  - vm_compute; reflexivity.
  - simpl; lia.
  - repeat constructor; right; simpl; lia.
Defined.

(** ** More on the annealing engine *)

Lemma read_routes_weaken (h h' : store) (l : loc) (rs : list (list Z)) :
  h ⊆ h' → read_routes h l = Ok rs → read_routes h' l = Ok rs.
Proof.
  intros Hsub Hread. by eapply read_routes_repr, repr_routes_weaken,
    read_routes_repr.
Qed.

Section AnnealingMore.
Variable libm_exp : spec_float → spec_float.
Variable global_feasible_routes : loc.
Variable global_num_vehicles : Z.
Variables (cij tij : gmap (Z * Z) Z) (a b : gmap Z Z) (q : Z) (di : gmap Z Z).
Variable initial_routes : loc.
Variable num_vehicles : Z.

Let cost_at := cost_of global_num_vehicles cij tij a b q di num_vehicles.
Let invariant := sa_invariant cost_at.

Lemma cost_of_weaken (h h' : store) (l : loc) (c : cost) :
  h ⊆ h' → cost_at h l = Ok c → cost_at h' l = Ok c.
Proof.
  unfold cost_at, cost_of. intros Hsub H. bind_inv H.
  by rewrite (read_routes_weaken h h' l v Hsub Hv).
Qed.

Lemma sa_init_invariant (h : store) (g : rng) (st0 : sa_state) :
  sa_init global_feasible_routes global_num_vehicles cij tij a b q di
    initial_routes num_vehicles h g = Ok st0 →
  ∃ rs0, read_routes h global_feasible_routes = Ok rs0 ∧
         invariant h rs0 st0 ∧ temperature st0 = Int 1000 ∧
         heap st0 = h ∧ current_routes st0 = global_feasible_routes.
Proof.
  unfold sa_init. intros H. bind_inv H. injection H as <-.
  pose proof Hv as Hcost. unfold cost_of in Hv. bind_inv Hv.
  exists v0. split; [done|]. split; [|done]. unfold invariant, sa_invariant.
  simpl. split_and!; try done.
  - exists v0. split; [done|]. split; [done|apply same_frame_refl].
  - exists v0. split; [done|]. split; [done|apply same_frame_refl].
Qed.

Lemma sa_body_invariant (h0 : store) (rs0 : list (list Z)) (st st' : sa_state) :
  invariant h0 rs0 st →
  sa_body libm_exp global_num_vehicles cij tij a b q di num_vehicles st
    = Ok st' →
  invariant h0 rs0 st'.
Proof.
  intros (Hgrow & (rsc & Hrc & Hpc & Hfc) & (rsb & Hrb & Hpb & Hfb) & Hcost)
    (new & h & g & cost & accepted & g' & t & Hgen & Hnew & _ & _ & ->)
      %sa_body_inv.
  destruct (generate_new_solution_inv _ _ _ _ _ _ _ Hrc Hgen)
    as (rsn & Hmove & Hrn & Hsub & _).
  apply move_keeps in Hmove as [Hpn Hfn].
  assert (∃ rs, read_routes h new = Ok rs ∧ concat rs ≡ₚ concat rs0 ∧
                same_frame rs rs0) as Hnew_ok.
  { exists rsn. split; [done|]. split; [by rewrite Hpn|].
    by eapply same_frame_trans. }
  unfold invariant, sa_invariant. simpl. split_and!.
  - by etrans.
  - destruct accepted; [done|].
    exists rsc. split; [by eapply read_routes_weaken|done].
  - destruct (accepted && cost_lt cost (best_cost st)); [done|].
    exists rsb. split; [by eapply read_routes_weaken|done].
  - destruct (accepted && cost_lt cost (best_cost st)); [done|].
    by eapply cost_of_weaken.
Qed.

Lemma sa_iterate_invariant (h0 : store) (rs0 : list (list Z)) (n : nat)
    (st st' : sa_state) :
  invariant h0 rs0 st →
  sa_iterate libm_exp global_num_vehicles cij tij a b q di num_vehicles n st
    = Ok st' →
  invariant h0 rs0 st'.
Proof.
  revert st. induction n as [|n IH]; intros st Hinv; simpl.
  - by intros [= <-].
  - destruct (gt_one (temperature st)); [|by intros [= <-]].
    intros H. bind_inv H. eapply IH; [|done]. by eapply sa_body_invariant.
Qed.

(** A run that returns, seen from its first state. *)
Lemma simulated_annealing_done (fuel : nat) (h : store) (g : rng)
    (best : loc) (bc : cost) (h' : store) (g' : rng) :
  simulated_annealing libm_exp global_feasible_routes global_num_vehicles
    cij tij a b q di initial_routes num_vehicles fuel h g
    = Done (best, bc, h', g') →
  ∃ st0 st rs0,
    sa_init global_feasible_routes global_num_vehicles cij tij a b q di
      initial_routes num_vehicles h g = Ok st0 ∧
    read_routes h global_feasible_routes = Ok rs0 ∧
    cost_at h global_feasible_routes = Ok (best_cost st0) ∧
    sa_iterate libm_exp global_num_vehicles cij tij a b q di num_vehicles
      fuel st0 = Ok st ∧
    invariant h rs0 st ∧
    best_routes st = best ∧ best_cost st = bc ∧ heap st = h'.
Proof.
  unfold simulated_annealing.
  destruct (sa_init _ _ _ _ _ _ _ _ _ _ h g) as [st0|e] eqn:Hinit; [|done].
  destruct (sa_loop _ _ _ _ _ _ _ _ _ _ st0) as [st| |] eqn:Hloop; try done.
  intros [= <- <- <- <-]. apply sa_loop_iterate in Hloop.
  destruct (sa_init_invariant _ _ _ Hinit) as (rs0 & Hrs0 & Hinv & _ & Hh & Hc).
  exists st0, st, rs0. split_and!; try done.
  - destruct Hinv as (_ & _ & _ & Hcost).
    unfold sa_init in Hinit. bind_inv Hinit. by injection Hinit as <-.
  - by eapply sa_iterate_invariant.
Qed.

Lemma sa_loop_stays_hot (n fuel : nat) (st : sa_state) :
  (fuel ≤ n)%nat →
  stays_hot n (temperature st) = true →
  ∀ st', sa_loop libm_exp global_num_vehicles cij tij a b q di num_vehicles
           fuel st ≠ Done st'.
Proof.
  revert n st. induction fuel as [|fuel IH]; intros n st Hle Hhot st'.
  - destruct n; simpl in *; apply andb_true_iff in Hhot as [-> _]; done.
  - destruct n as [|n]; [lia|]. simpl in *.
    apply andb_true_iff in Hhot as [-> Hhot].
    destruct (sa_body _ _ _ _ _ _ _ _ _ st) as [st1|e] eqn:Hbody; [|done].
    rewrite (sa_body_temperature _ _ _ _ _ _ _ _ _ _ _ Hbody) in Hhot.
    apply (IH n); [lia|done].
Qed.
End AnnealingMore.

(** The notebook's instance annealed to the end, with the draws
    [1, 0, 1, 1] followed by zeros and a constant [exp]: the run returns. *)
Lemma notebook_run_completes :
  completes
    (simulated_annealing (λ _, one)
       (fst (alloc_solution ∅ Notebook.feasible_routes))
       Notebook.num_vehicles Notebook.cij Notebook.tij Notebook.a
       Notebook.b Notebook.q Notebook.di
       (fst (alloc_solution ∅ Notebook.feasible_routes))
       Notebook.num_vehicles 688
       (snd (alloc_solution ∅ Notebook.feasible_routes))
       [1; 0; 1; 1]%N) = true.
Proof. vm_compute. reflexivity. Qed.

(** That run, named in a goal about it. *)
Ltac notebook_run :=
  let Hrun := fresh "Hrun" in
  pose proof notebook_run_completes as Hrun;
  change (alloc_solution ∅ Notebook.feasible_routes)
    with (fst (alloc_solution ∅ Notebook.feasible_routes),
          snd (alloc_solution ∅ Notebook.feasible_routes));
  cbv beta iota;
  destruct (simulated_annealing _ _ _ _ _ _ _ _ _ _ _ _ _ _)
    as [[[[best bc] h'] g']| |] eqn:Hdone; try discriminate Hrun.

(** X15: the pair a run returns is consistent: in the store the run leaves,
    [calculate_cost] of the returned best routes is the returned best
    cost; and the run has changed no list object that existed before it. *)
Theorem returned_cost_is_cost_of_best (libm_exp : spec_float → spec_float)
    (global_feasible_routes : loc) (global_num_vehicles : Z)
    (cij tij : gmap (Z * Z) Z) (a b : gmap Z Z) (q : Z) (di : gmap Z Z)
    (initial_routes : loc) (num_vehicles : Z) (fuel : nat)
    (h : store) (g : rng) (best : loc) (bc : cost) (h' : store) (g' : rng) :
  simulated_annealing libm_exp global_feasible_routes global_num_vehicles
    cij tij a b q di initial_routes num_vehicles fuel h g
    = Done (best, bc, h', g') →
  cost_of global_num_vehicles cij tij a b q di num_vehicles h' best = Ok bc ∧
  h ⊆ h'.
Proof.
  intros (st0 & st & rs0 & _ & _ & _ & _ & Hinv & <- & <- & <-)
    %simulated_annealing_done.
  destruct Hinv as (Hgrow & _ & _ & Hcost). done.
Qed.

Lemma returned_cost_is_cost_of_best_witness :
  let '(routes, h) := alloc_solution ∅ Notebook.feasible_routes in
  match simulated_annealing (λ _, one) routes Notebook.num_vehicles
          Notebook.cij Notebook.tij Notebook.a Notebook.b Notebook.q
          Notebook.di routes Notebook.num_vehicles 688 h [1; 0; 1; 1]%N
  with
  | Done (best, bc, h', g') =>
      cost_of Notebook.num_vehicles Notebook.cij Notebook.tij Notebook.a
        Notebook.b Notebook.q Notebook.di Notebook.num_vehicles h' best
        = Ok bc ∧
      h ⊆ h'
  | _ => False
  end.
Proof.
  notebook_run.
  exact (returned_cost_is_cost_of_best _ _ _ _ _ _ _ _ _ _ _ _ _ _ _ _ _ _
           Hdone).
Defined.

(** X16: the search neither drops nor duplicates a visit: the best routes a
    run returns visit the nodes of the solution the engine starts from
    (the global [feasible_routes]) the same number of times, and have its
    frame (as many routes, each with the length, first node and last node
    it has there). *)
Theorem best_keeps_nodes (libm_exp : spec_float → spec_float)
    (global_feasible_routes : loc) (global_num_vehicles : Z)
    (cij tij : gmap (Z * Z) Z) (a b : gmap Z Z) (q : Z) (di : gmap Z Z)
    (initial_routes : loc) (num_vehicles : Z) (fuel : nat)
    (h : store) (g : rng) (best : loc) (bc : cost) (h' : store) (g' : rng) :
  simulated_annealing libm_exp global_feasible_routes global_num_vehicles
    cij tij a b q di initial_routes num_vehicles fuel h g
    = Done (best, bc, h', g') →
  ∃ rs0 rs,
    read_routes h global_feasible_routes = Ok rs0 ∧
    read_routes h' best = Ok rs ∧
    concat rs ≡ₚ concat rs0 ∧ same_frame rs rs0.
Proof.
  intros (st0 & st & rs0 & _ & Hrs0 & _ & _ & Hinv & <- & <- & <-)
    %simulated_annealing_done.
  destruct Hinv as (_ & _ & (rs & Hrs & Hperm & Hframe) & _).
  by exists rs0, rs.
Qed.

Lemma best_keeps_nodes_witness :
  let '(routes, h) := alloc_solution ∅ Notebook.feasible_routes in
  match simulated_annealing (λ _, one) routes Notebook.num_vehicles
          Notebook.cij Notebook.tij Notebook.a Notebook.b Notebook.q
          Notebook.di routes Notebook.num_vehicles 688 h [1; 0; 1; 1]%N
  with
  | Done (best, bc, h', g') =>
      ∃ rs0 rs,
        read_routes h routes = Ok rs0 ∧
        read_routes h' best = Ok rs ∧
        concat rs ≡ₚ concat rs0 ∧ same_frame rs rs0
  | _ => False
  end.
Proof.
  notebook_run.
  exact (best_keeps_nodes _ _ _ _ _ _ _ _ _ _ _ _ _ _ _ _ _ _ Hdone).
Defined.

(** X17: from a feasible start the search returns a feasible solution: on an
    instance in which every arc that has a travel time has a cost, if
    [is_feasible] accepts the solution the engine starts from (the global
    [feasible_routes]), then the returned best cost is finite and
    [is_feasible] accepts the returned best routes. *)
Theorem feasible_start_feasible_best (libm_exp : spec_float → spec_float)
    (global_feasible_routes : loc) (global_num_vehicles : Z)
    (cij tij : gmap (Z * Z) Z) (a b : gmap Z Z) (q : Z) (di : gmap Z Z)
    (K : Z) (initial_routes : loc) (num_vehicles : Z) (fuel : nat)
    (h : store) (g : rng) (rs0 : list (list Z))
    (best : loc) (bc : cost) (h' : store) (g' : rng) :
  dom tij ⊆ dom cij →
  read_routes h global_feasible_routes = Ok rs0 →
  is_feasible rs0 tij di q a b K = Ok true →
  simulated_annealing libm_exp global_feasible_routes global_num_vehicles
    cij tij a b q di initial_routes num_vehicles fuel h g
    = Done (best, bc, h', g') →
  ∃ rs c,
    read_routes h' best = Ok rs ∧ bc = Fin c ∧
    is_feasible rs tij di q a b K = Ok true.
Proof.
  intros Hdom Hrs0 Hfeas
    (st0 & st & rs0' & Hinit & Hrs0' & Hc0 & Hiter & Hinv & <- & <- & <-)
    %simulated_annealing_done.
  assert (rs0' = rs0) as -> by congruence.
  destruct Hinv as (_ & _ & (rs & Hrs & Hperm & Hframe) & Hcost).
  unfold is_feasible in Hfeas. case_bool_decide as Hsize; [done|].
  (* the start cost is finite, and the best cost is no larger *)
  destruct (feasible_routes_have_cost cij tij a b q di 0 rs0
              (new_ledger global_num_vehicles) 0) as [c0 Hcost0]; [|done|].
  { intros i j Ht. apply elem_of_dom, Hdom, elem_of_dom, Ht. }
  assert (best_cost st0 = Fin c0) as Hstart.
  { unfold cost_of in Hc0. rewrite Hrs0 in Hc0. cbn [bind] in Hc0.
    unfold calculate_cost in Hc0. congruence. }
  apply sa_iterate_best_cost in Hiter. rewrite Hstart in Hiter.
  destruct (best_cost st) as [c|] eqn:Hbc; [|done].
  exists rs, c. split; [done|]. split; [done|].
  (* coverage, endpoints and the walks carry over *)
  unfold cost_of in Hcost. rewrite Hrs in Hcost. cbn [bind] in Hcost.
  unfold calculate_cost in Hcost. unfold is_feasible.
  assert (customers_visited b rs = customers_visited b rs0) as ->.
  { apply set_eq. intros i. rewrite !customers_visited_elem.
    by rewrite Hperm. }
  rewrite bool_decide_false by (intros Hne; by apply Hne).
  eapply cost_routes_feasible; [exact Hcost|].
  apply feasible_routes_good in Hfeas.
  apply Forall_forall. intros r Hr.
  apply list_elem_of_lookup in Hr as [k Hk].
  destruct (Forall2_lookup_l _ _ _ _ _ Hframe Hk) as (r0 & Hk0 & _ & Hhead & Hlast).
  rewrite Forall_forall in Hfeas.
  destruct (Hfeas r0 (list_elem_of_lookup_2 _ _ _ Hk0)) as [H0 Hn].
  split; congruence.
Qed.

Lemma feasible_start_feasible_best_witness :
  let '(routes, h) := alloc_solution ∅ Notebook.feasible_routes in
  dom Notebook.tij ⊆ dom Notebook.cij ∧
  read_routes h routes = Ok Notebook.feasible_routes ∧
  is_feasible Notebook.feasible_routes Notebook.tij Notebook.di Notebook.q
    Notebook.a Notebook.b Notebook.K = Ok true ∧
  match simulated_annealing (λ _, one) routes Notebook.num_vehicles
          Notebook.cij Notebook.tij Notebook.a Notebook.b Notebook.q
          Notebook.di routes Notebook.num_vehicles 688 h [1; 0; 1; 1]%N
  with
  | Done (best, bc, h', g') =>
      ∃ rs c,
        read_routes h' best = Ok rs ∧ bc = Fin c ∧
        is_feasible rs Notebook.tij Notebook.di Notebook.q Notebook.a
          Notebook.b Notebook.K = Ok true
  | _ => False
  end.
Proof.
  assert (dom Notebook.tij ⊆ dom Notebook.cij) as Hdom
    by (apply (bool_decide_unpack _); vm_compute; reflexivity).
  assert (read_routes (snd (alloc_solution ∅ Notebook.feasible_routes))
            (fst (alloc_solution ∅ Notebook.feasible_routes))
          = Ok Notebook.feasible_routes) as Hread
    by (vm_compute; reflexivity).
  assert (is_feasible Notebook.feasible_routes Notebook.tij Notebook.di
            Notebook.q Notebook.a Notebook.b Notebook.K = Ok true) as Hfeas
    by (vm_compute; reflexivity).
  notebook_run; (split; [exact Hdom|]; split; [exact Hread|];
                 split; [exact Hfeas|]).
  exact (feasible_start_feasible_best _ _ _ _ _ _ _ _ _ _ _ _ _ _ _ _ _ _ _ _
           Hdom Hread Hfeas Hdone).
Defined.

(** X18: there is no early exit: fewer than 688 iterations never complete a
    run, whatever the costs met on the way. *)
Theorem no_early_exit (libm_exp : spec_float → spec_float)
    (global_feasible_routes : loc) (global_num_vehicles : Z)
    (cij tij : gmap (Z * Z) Z) (a b : gmap Z Z) (q : Z) (di : gmap Z Z)
    (initial_routes : loc) (num_vehicles : Z) (fuel : nat)
    (h : store) (g : rng) (out : loc * cost * store * rng) :
  (fuel < 688)%nat →
  simulated_annealing libm_exp global_feasible_routes global_num_vehicles
    cij tij a b q di initial_routes num_vehicles fuel h g
    ≠ Done out.
Proof.
  intros Hfuel. unfold simulated_annealing.
  destruct (sa_init _ _ _ _ _ _ _ _ _ _ h g) as [st0|e] eqn:Hinit; [|done].
  destruct (sa_init_invariant _ _ _ _ _ _ _ _ _ _ _ _ _ Hinit)
    as (_ & _ & _ & Ht & _).
  destruct (sa_loop _ _ _ _ _ _ _ _ _ _ st0) as [st| |] eqn:Hloop; try done.
  exfalso. eapply (sa_loop_stays_hot libm_exp global_num_vehicles cij tij a b
                     q di num_vehicles 687 fuel st0); [lia| |exact Hloop].
  rewrite Ht. vm_compute. reflexivity.
Qed.

Lemma no_early_exit_witness :
  let '(routes, h) := alloc_solution ∅ Notebook.feasible_routes in
  (687 < 688)%nat ∧
  simulated_annealing (λ _, one) routes Notebook.num_vehicles Notebook.cij
    Notebook.tij Notebook.a Notebook.b Notebook.q Notebook.di routes
    Notebook.num_vehicles 687 h [1; 0; 1; 1]%N
  ≠ Done (routes, Fin 128, h, []).
Proof.
  split; [lia|].
  apply (no_early_exit (λ _, one)
           (fst (alloc_solution ∅ Notebook.feasible_routes))
           Notebook.num_vehicles Notebook.cij Notebook.tij Notebook.a
           Notebook.b Notebook.q Notebook.di
           (fst (alloc_solution ∅ Notebook.feasible_routes))
           Notebook.num_vehicles 687
           (snd (alloc_solution ∅ Notebook.feasible_routes)) [1; 0; 1; 1]%N).
  lia.
Defined.

(** X19: a start solution (the global [feasible_routes]) with fewer than two
    routes cannot be annealed: once its cost has been computed, the first
    iteration raises the [ValueError] of [random.sample]. *)
Theorem single_route_fails (libm_exp : spec_float → spec_float)
    (global_feasible_routes : loc) (global_num_vehicles : Z)
    (cij tij : gmap (Z * Z) Z) (a b : gmap Z Z) (q : Z) (di : gmap Z Z)
    (initial_routes : loc) (num_vehicles : Z) (fuel : nat)
    (h : store) (g : rng) (rs0 : list (list Z)) (c : cost) :
  read_routes h global_feasible_routes = Ok rs0 →
  (length rs0 < 2)%nat →
  calculate_cost global_num_vehicles (new_ledger num_vehicles) cij tij a b q
    di rs0 = Ok c →
  simulated_annealing libm_exp global_feasible_routes global_num_vehicles
    cij tij a b q di initial_routes num_vehicles (S fuel) h g
    = Failed ValueError.
Proof.
  intros Hrs0 Hlen Hcost. unfold simulated_annealing, sa_init, cost_of.
  rewrite Hrs0. cbn [bind]. rewrite Hcost. cbn [bind sa_loop temperature].
  change (gt_one (Int 1000)) with true. cbv iota.
  unfold sa_body. cbn [current_routes heap gen].
  pose proof (generate_new_solution_move h global_feasible_routes rs0 g
                ltac:(by apply read_routes_repr)) as Hmove.
  assert (move rs0 g = Raise ValueError) as Hraise.
  { unfold move, sample2. by rewrite bool_decide_true by lia. }
  rewrite Hraise in Hmove. rewrite Hmove. reflexivity.
Qed.

Lemma single_route_fails_witness :
  let '(routes, h) := alloc_solution ∅ [[0; 1; 4]] in
  read_routes h routes = Ok [[0; 1; 4]] ∧
  (length [[0; 1; 4]] < 2)%nat ∧
  calculate_cost Notebook.num_vehicles (new_ledger Notebook.num_vehicles)
    Notebook.cij Notebook.tij Notebook.a Notebook.b Notebook.q Notebook.di
    [[0; 1; 4]] = Ok (Fin 57) ∧
  simulated_annealing (λ _, one) routes Notebook.num_vehicles Notebook.cij
    Notebook.tij Notebook.a Notebook.b Notebook.q Notebook.di routes
    Notebook.num_vehicles 688 h [1; 0; 1; 1]%N
  = Failed ValueError.
Proof.
  assert (read_routes (snd (alloc_solution ∅ [[0; 1; 4]]))
            (fst (alloc_solution ∅ [[0; 1; 4]])) = Ok [[0; 1; 4]]) as Hread
    by (vm_compute; reflexivity).
  assert (calculate_cost Notebook.num_vehicles
            (new_ledger Notebook.num_vehicles) Notebook.cij Notebook.tij
            Notebook.a Notebook.b Notebook.q Notebook.di [[0; 1; 4]]
          = Ok (Fin 57)) as Hcost
    by (vm_compute; reflexivity).
  split; [exact Hread|]. split; [simpl; lia|]. split; [exact Hcost|].
  apply (single_route_fails (λ _, one)
           (fst (alloc_solution ∅ [[0; 1; 4]]))
           Notebook.num_vehicles Notebook.cij Notebook.tij Notebook.a
           Notebook.b Notebook.q Notebook.di
           (fst (alloc_solution ∅ [[0; 1; 4]]))
           Notebook.num_vehicles 687
           (snd (alloc_solution ∅ [[0; 1; 4]])) [1; 0; 1; 1]%N
           [[0; 1; 4]] (Fin 57) Hread);
    [simpl; lia|exact Hcost].
Defined.
